(** * neverclass: the SA-MP query client ([src/sampquery.ts])

    A shallow embedding of [SampQuery.request]: option defaulting, the
    request packet, the UDP exchange as a machine driven by the events of
    the socket and of the timer, and the four reply decoders.

    [src/unnamed/part_000] is an earlier revision of the same file: no
    [resolveHost] option, the name always resolved, strings read with
    [readString]; the handler and its loops are the same.  The embedding
    follows [src/sampquery.ts].

    Conventions.  A byte is a [Z] in [0, 256).  A JavaScript string read
    from the wire is a list of UTF-16 code units ([text]); the strings the
    caller passes (address, error messages) are [string].  JavaScript
    numbers are followed on the integers only. *)

From Stdlib Require Import ZArith List String Ascii Bool Lia DecimalString.
Import ListNotations.
Open Scope Z_scope.

(** ** The byte stream ([./bitstream], imported by [sampquery.ts]) *)

Module BitStream.

(** Modelled from the spec: the two faults of the codec, section 7
    ([TruncatedBuffer], [InvalidSlice]); [src/bitstream.ts] is not part of
    the sources at hand. *)
Inductive fault : Type :=
| TruncatedBuffer
| InvalidSlice.

(** Modelled from the spec: the byte buffer with dual cursors of section 3
    (backing storage, read offset, write offset, both starting at 0); the
    class [BitStream] itself is missing from the sources. *)
Record t : Type := mk {
  buffer : list Z;
  readOffset : nat;
  writeOffset : nat
}.

(** Modelled from the spec: [new BitStream()], created empty for encoding
    a request. *)
Definition empty : t := mk [] 0 0.

(** Modelled from the spec: [BitStream.from(message)], a stream created
    from a received datagram, cursors at 0. *)
Definition from (message : list Z) : t := mk message 0 0.

(** Modelled from the spec: [getBuffer()] and [length], the accumulated
    buffer and its current length. *)
Definition getBuffer (bs : t) : list Z := buffer bs.
Definition length (bs : t) : nat := List.length (buffer bs).

(** Modelled from the spec: [writeUInt8], section 4.1, appends an unsigned
    8-bit integer and advances the write offset by one.  The spec gives the
    operation on unsigned 8-bit integers only: on another number the model
    has no value. *)
Definition writeUInt8 (v : Z) (bs : t) : option t :=
  if (0 <=? v) && (v <? 256)
  then Some (mk (buffer bs ++ [v]) (readOffset bs) (S (writeOffset bs)))
  else None.

(** Modelled from the spec: [writeString], section 4.1, appends a
    fixed-length ASCII string as raw bytes, no length prefix and no
    terminator. *)
Definition writeString (s : string) (bs : t) : t :=
  let raw := map (fun c => Z.of_nat (nat_of_ascii c)) (list_ascii_of_string s) in
  mk (buffer bs ++ raw) (readOffset bs) (writeOffset bs + List.length raw).

(** The reads thread the stream and may fault: a state and error monad. *)
Definition Read (A : Type) : Type := t -> fault + (A * t).

Definition ret {A} (a : A) : Read A := fun bs => inr (a, bs).

Definition bind {A B} (m : Read A) (k : A -> Read B) : Read B :=
  fun bs => match m bs with
            | inl f => inl f
            | inr (a, bs') => k a bs'
            end.

(** Modelled from the spec: [readBytes], section 4.1: exactly [n] bytes
    from the read offset, which advances by [n]; [TruncatedBuffer] when
    they are not available. *)
Definition readBytes (n : Z) : Read (list Z) :=
  fun bs =>
    let k := Z.to_nat n in
    if (readOffset bs + k <=? List.length (buffer bs))%nat
    then inr (firstn k (skipn (readOffset bs) (buffer bs)),
              mk (buffer bs) (readOffset bs + k) (writeOffset bs))
    else inl TruncatedBuffer.

(** The value of a run of bytes, low byte first. *)
Fixpoint littleEndian (raw : list Z) : Z :=
  match raw with
  | [] => 0
  | b :: rest => b + 256 * littleEndian rest
  end.

(** Modelled from the spec: [readUInt8], [readUInt16], [readUInt32],
    section 4.1: 1, 2 and 4 bytes from the read offset, little-endian;
    [TruncatedBuffer] when fewer bytes remain. *)
Definition readUInt (width : Z) : Read Z :=
  bind (readBytes width) (fun raw => ret (littleEndian raw)).

Definition readUInt8 : Read Z := readUInt 1.
Definition readUInt16 : Read Z := readUInt 2.
Definition readUInt32 : Read Z := readUInt 4.

(** Modelled from the spec: [readBoolean], section 4.1: one byte, true
    iff nonzero. *)
Definition readBoolean : Read bool :=
  bind readUInt8 (fun b => ret (negb (b =? 0))).

(** Modelled from the spec: [slice], section 4.1: a new reader over the
    storage from the absolute offset [k] on, with a fresh read cursor;
    [InvalidSlice] when [k] exceeds the total length. *)
Definition slice (k : nat) (bs : t) : fault + t :=
  if (k <=? List.length (buffer bs))%nat
  then inr (mk (skipn k (buffer bs)) 0 0)
  else inl InvalidSlice.

(** The bytes a reader has not consumed yet. *)
Definition remaining (bs : t) : list Z := skipn (readOffset bs) (buffer bs).

End BitStream.

Declare Scope read_scope.
Delimit Scope read_scope with read.
Notation "x <- m ;; k" := (BitStream.bind m (fun x => k))
  (at level 61, m at next level, right associativity) : read_scope.
Notation "'pure' a" := (BitStream.ret a) (at level 10) : read_scope.

(** ** Text read from the wire *)

(** A JavaScript string, as its UTF-16 code units. *)
Definition text : Type := list Z.

(** The code units of an ASCII literal. *)
Definition str (s : string) : text :=
  map (fun c => Z.of_nat (nat_of_ascii c)) (list_ascii_of_string s).

(** The upper half of the windows-1251 table of iconv-lite, from 0x80 to
    0xBF; 0x98 is unassigned and decodes to U+FFFD.  From 0xC0 on the code
    page is the run U+0410 .. U+044F. *)
Definition win1251High : list Z :=
  [ 0x0402; 0x0403; 0x201A; 0x0453; 0x201E; 0x2026; 0x2020; 0x2021;
    0x20AC; 0x2030; 0x0409; 0x2039; 0x040A; 0x040C; 0x040B; 0x040F;
    0x0452; 0x2018; 0x2019; 0x201C; 0x201D; 0x2022; 0x2013; 0x2014;
    0xFFFD; 0x2122; 0x0459; 0x203A; 0x045A; 0x045C; 0x045B; 0x045F;
    0x00A0; 0x040E; 0x045E; 0x0408; 0x00A4; 0x0490; 0x00A6; 0x00A7;
    0x0401; 0x00A9; 0x0404; 0x00AB; 0x00AC; 0x00AD; 0x00AE; 0x0407;
    0x00B0; 0x00B1; 0x0406; 0x0456; 0x0491; 0x00B5; 0x00B6; 0x00B7;
    0x0451; 0x2116; 0x0454; 0x00BB; 0x0458; 0x0405; 0x0455; 0x0457 ].

Definition win1251Char (b : Z) : Z :=
  if b <? 0x80 then b
  else if b <? 0xC0 then nth (Z.to_nat (b - 0x80)) win1251High 0xFFFD
  else 0x0410 + (b - 0xC0).

(** [iconv.decode(str, 'win1251')]: a single-byte code page, one code unit
    per byte. *)
Definition iconvDecodeWin1251 (raw : list Z) : text := map win1251Char raw.

Definition decodeWin1251String (raw : list Z) : text := iconvDecodeWin1251 raw.

Definition bsReadCP1251String (len : Z) : BitStream.Read text :=
  (raw <- BitStream.readBytes len ;; pure (decodeWin1251String raw))%read.

(** ** Options, opcodes and results *)

Record SampQueryOptions : Type := mkOptions {
  ip : option string;
  port : option Z;
  timeout : option Z;
  resolveHost : option bool
}.

Inductive SampQueryOpcode : Type := op_i | op_r | op_d | op_c.

(** [opcode.charCodeAt(0)] *)
Definition charCode (opcode : SampQueryOpcode) : Z :=
  match opcode with
  | op_i => 105
  | op_r => 114
  | op_d => 100
  | op_c => 99
  end.

Record SampQueryPlayer : Type := mkPlayer {
  id : Z;
  name : text;
  score : Z;
  ping : Z
}.

Record SampQueryInfoResult : Type := mkInfo {
  closed : bool;
  players : Z;
  maxPlayers : Z;
  serverName : text;
  gameModeName : text;
  language : text
}.

(** An entry of [SampQueryRulesResult] and one of [SampQueryPlayersResult]
    (the pick of [name] and [score]). *)
Record SampQueryRule : Type := mkRule { ruleName : text; ruleValue : text }.
Record SampQueryPlayerStat : Type := mkStat { statName : text; statScore : Z }.

(** What [request] resolves with, one shape per opcode. *)
Inductive SampQueryResult : Type :=
| InfoResult (info : SampQueryInfoResult)
| RulesResult (rules : list SampQueryRule)
| PlayersDetailedResult (detailed : list SampQueryPlayer)
| PlayersResult (stats : list SampQueryPlayerStat).

(** ** The decoders of the ['message'] handler *)

Section Decoders.
Import BitStream.
Local Open Scope read_scope.

(** Opcode ['i']. *)
Definition readInfo : Read SampQueryInfoResult :=
  closed <- readBoolean ;;
  players <- readUInt16 ;;
  maxPlayers <- readUInt16 ;;
  len1 <- readUInt32 ;;
  serverName <- bsReadCP1251String len1 ;;
  len2 <- readUInt32 ;;
  gameModeName <- bsReadCP1251String len2 ;;
  len3 <- readUInt32 ;;
  language <- bsReadCP1251String len3 ;;
  pure (mkInfo closed players maxPlayers serverName gameModeName language).

(** Opcode ['r']: the count is read once, into [count], before the loop;
    the loop body runs [count] times. *)
Fixpoint readRulesLoop (n : nat) (rulesResult : list SampQueryRule)
  : Read (list SampQueryRule) :=
  match n with
  | O => pure rulesResult
  | S n' =>
      len1 <- readUInt8 ;;
      name <- bsReadCP1251String len1 ;;
      len2 <- readUInt8 ;;
      value <- bsReadCP1251String len2 ;;
      readRulesLoop n' (rulesResult ++ [mkRule name value])
  end.

Definition readRules : Read (list SampQueryRule) :=
  count <- readUInt16 ;;
  readRulesLoop (Z.to_nat count) [].

(** Opcode ['d']: [for (let i = 0; i < bytes.readUInt16(); i++)].  The
    test of the loop calls [readUInt16] each time it is evaluated.  Every
    evaluation consumes two bytes or faults, so the loop ends; [fuel]
    bounds the evaluations and [None] is the answer of a loop cut short
    by it. *)
Fixpoint readPlayersDetailedLoop (fuel : nat) (i : Z)
    (playersResult : list SampQueryPlayer)
  : Read (option (list SampQueryPlayer)) :=
  match fuel with
  | O => pure None
  | S fuel' =>
      bound <- readUInt16 ;;
      if i <? bound then
        id <- readUInt8 ;;
        len <- readUInt8 ;;
        name <- bsReadCP1251String len ;;
        score <- readUInt32 ;;
        ping <- readUInt32 ;;
        readPlayersDetailedLoop fuel' (i + 1)
          (playersResult ++ [mkPlayer id name score ping])
      else pure (Some playersResult)
  end.

(** Opcode ['c']: the same loop shape, records of a name and a score. *)
Fixpoint readPlayersLoop (fuel : nat) (i : Z)
    (playersStatsResult : list SampQueryPlayerStat)
  : Read (option (list SampQueryPlayerStat)) :=
  match fuel with
  | O => pure None
  | S fuel' =>
      bound <- readUInt16 ;;
      if i <? bound then
        len <- readUInt8 ;;
        name <- bsReadCP1251String len ;;
        score <- readUInt32 ;;
        readPlayersLoop fuel' (i + 1) (playersStatsResult ++ [mkStat name score])
      else pure (Some playersStatsResult)
  end.

(** Enough evaluations of the loop test for any stream: one more than
    the bytes left. *)
Definition loopFuel (bs : t) : nat := S (List.length (remaining bs)).

(** The body of the [try] after the slice, by opcode.  [None] stands for
    a loop cut short by its fuel ([decode_total] shows there is none). *)
Definition decode (opcode : SampQueryOpcode) : Read (option SampQueryResult) :=
  match opcode with
  | op_i => info <- readInfo ;; pure (Some (InfoResult info))
  | op_r => rules <- readRules ;; pure (Some (RulesResult rules))
  | op_d => fun bs =>
      (r <- readPlayersDetailedLoop (loopFuel bs) 0 [] ;;
       pure (option_map PlayersDetailedResult r)) bs
  | op_c => fun bs =>
      (r <- readPlayersLoop (loopFuel bs) 0 [] ;;
       pure (option_map PlayersResult r)) bs
  end.

End Decoders.

(** ** Defaults and the request packet *)

(** A default of the destructuring pattern, [x = this.options.x]: it
    applies when the property of the argument is [undefined]. *)
Definition orDefault {A} (given fallback : option A) : option A :=
  match given with
  | Some a => Some a
  | None => fallback
  end.

(** [if (!ip) ip = '127.0.0.1']: [undefined] and the empty string are
    falsy. *)
Definition defaultIp (ip : option string) : string :=
  match ip with
  | None => "127.0.0.1"
  | Some s => if String.eqb s "" then "127.0.0.1" else s
  end.

(** [if (!port) port = 7777] and [if (!timeout) timeout = 2000]:
    [undefined] and 0 are falsy. *)
Definition defaultNumber (fallback : Z) (n : option Z) : Z :=
  match n with
  | None => fallback
  | Some z => if z =? 0 then fallback else z
  end.

Definition defaultPort : option Z -> Z := defaultNumber 7777.
Definition defaultTimeout : option Z -> Z := defaultNumber 2000.

(** [if (resolveHost === undefined) resolveHost = false] *)
Definition defaultResolveHost (r : option bool) : bool :=
  match r with
  | None => false
  | Some b => b
  end.

(** [ip.split('.')] *)
Fixpoint split (sep : ascii) (s : string) : list string :=
  match s with
  | EmptyString => [EmptyString]
  | String c rest =>
      if Ascii.eqb c sep then EmptyString :: split sep rest
      else match split sep rest with
           | [] => [String c EmptyString]
           | part :: parts => String c part :: parts
           end
  end.

Definition isDigit (c : ascii) : bool :=
  let n := nat_of_ascii c in ((48 <=? n) && (n <=? 57))%nat.

Fixpoint digitsValue (acc : Z) (s : string) : option Z :=
  match s with
  | EmptyString => Some acc
  | String c rest =>
      if isDigit c
      then digitsValue (10 * acc + (Z.of_nat (nat_of_ascii c) - 48)) rest
      else None
  end.

(** [+v] on a part of the address.  A run of decimal digits converts to
    its value and the empty string to 0.  [None] stands for every other
    string: the conversions to [NaN] and the numerals written with white
    space, a sign, an exponent or a radix prefix are not followed here. *)
Definition toNumber (v : string) : option Z := digitsValue 0 v.

(** [for (const v of ip.split('.')) bs.writeUInt8(+v)] *)
Fixpoint writeParts (parts : list string) (bs : BitStream.t) : option BitStream.t :=
  match parts with
  | [] => Some bs
  | v :: rest =>
      match toNumber v with
      | None => None
      | Some n =>
          match BitStream.writeUInt8 n bs with
          | None => None
          | Some bs' => writeParts rest bs'
          end
      end
  end.

(** The stream [bs] of [request] once its five writes are done, for the
    address and port after defaulting.  [port & 0xFF] and
    [port >> 8 & 0xFF] on an integer are the two low bytes of its two's
    complement form.  [None]: an address part that [toNumber] or
    [writeUInt8] does not follow. *)
Definition requestStream (ip : string) (port : Z) (opcode : SampQueryOpcode)
  : option BitStream.t :=
  let bs := BitStream.writeString "SAMP" BitStream.empty in
  match writeParts (split "." ip) bs with
  | None => None
  | Some bs1 =>
      match BitStream.writeUInt8 (Z.land port 0xFF) bs1 with
      | None => None
      | Some bs2 =>
          match BitStream.writeUInt8 (Z.land (Z.shiftr port 8) 0xFF) bs2 with
          | None => None
          | Some bs3 => BitStream.writeUInt8 (charCode opcode) bs3
          end
      end
  end.

(** The bytes handed to [socket.send(bs.getBuffer(), 0, bs.length, ...)]. *)
Definition sentBytes (bs : BitStream.t) : list Z :=
  firstn (BitStream.length bs) (skipn 0 (BitStream.getBuffer bs)).

(** ** The exchange *)

(** What the promise is rejected with. *)
Inductive reason : Type :=
| Error (message : string)          (* [new Error(...)] built by [request] *)
| Thrown (f : BitStream.fault)      (* caught by the [catch] of the handler *)
| External (e : string).            (* an error object of [dns] or [dgram] *)

Inductive settlement : Type :=
| Resolved (value : SampQueryResult)
| Rejected (why : reason).

(** The calls [request] makes on its collaborators, in order. *)
Inductive action : Type :=
| DnsResolve (address : string)
| CreateSocket
| Send (payload : list Z) (port : Z) (address : string)
| SetTimeout (ms : Z)
| ClearTimeout
| OnceMessage
| Close.

(** What the event loop delivers after [request] has returned. *)
Inductive event : Type :=
| SendDone (err : option string)    (* the callback of [socket.send] *)
| TimerFired                        (* the callback of [setTimeout] *)
| Message (message : list Z).       (* a datagram on the socket *)

Record transaction : Type := mkTransaction {
  log : list action;                (* calls made so far, oldest first *)
  promise : option settlement;      (* [None] while pending *)
  socketOpen : bool;
  timerArmed : bool;
  listening : bool;                 (* the [once] handler is still installed *)
  sendPending : bool
}.

Definition showNumber (z : Z) : string := NilZero.string_of_int (Z.to_int z).

Definition showOptString (s : option string) : string :=
  match s with Some s => s | None => "undefined" end.

Definition showOptNumber (z : option Z) : string :=
  match z with Some z => showNumber z | None => "undefined" end.

Definition hostUnavailable (ip : string) (port : Z) : reason :=
  Error ("[sampquery] [" ++ ip ++ ":" ++ showNumber port ++ "] host unavailable").

Definition invalidMessage (this : SampQueryOptions) : reason :=
  Error ("[sampquery] [" ++ showOptString (ip this) ++ ":"
         ++ showOptNumber (port this) ++ "] invalid message from socket").

(** [resolve] and [reject] settle a pending promise and do nothing to a
    settled one. *)
Definition settle (s : settlement) (t : transaction) : transaction :=
  match promise t with
  | Some _ => t
  | None => mkTransaction (log t) (Some s) (socketOpen t) (timerArmed t)
              (listening t) (sendPending t)
  end.

Definition call (a : action) (t : transaction) : transaction :=
  mkTransaction (log t ++ [a]) (promise t) (socketOpen t) (timerArmed t)
    (listening t) (sendPending t).

(** [socket.close()] *)
Definition close (t : transaction) : transaction :=
  let t := call Close t in
  mkTransaction (log t) (promise t) false (timerArmed t) (listening t) (sendPending t).

(** [clearTimeout(controller)] *)
Definition clearTimeout (t : transaction) : transaction :=
  let t := call ClearTimeout t in
  mkTransaction (log t) (promise t) (socketOpen t) false (listening t) (sendPending t).

(** The handler of [socket.once('message', ...)]: the [try] block, and the
    [catch] that hands the caught error to [reject]. *)
Definition onMessage (this : SampQueryOptions) (opcode : SampQueryOpcode)
    (message : list Z) (t : transaction) : transaction :=
  let t := clearTimeout t in
  if (List.length message <? 11)%nat
  then settle (Rejected (invalidMessage this)) t
  else
    let t := close t in
    match BitStream.slice 11 (BitStream.from message) with
    | inl f => settle (Rejected (Thrown f)) t
    | inr bytes =>
        match decode opcode bytes with
        | inl f => settle (Rejected (Thrown f)) t
        | inr (Some value, _) => settle (Resolved value) t
        | inr (None, _) => t
        end
    end.

(** One callback run by the event loop.  An event that cannot occur in the
    state (a cleared or spent timer, a datagram on a closed socket or after
    the [once] handler has run, a second send callback) leaves it as it
    is. *)
Definition step (this : SampQueryOptions) (ip : string) (port : Z)
    (opcode : SampQueryOpcode) (t : transaction) (e : event) : transaction :=
  match e with
  | SendDone err =>
      if sendPending t then
        let t := mkTransaction (log t) (promise t) (socketOpen t) (timerArmed t)
                   (listening t) false in
        match err with
        | Some e => close (settle (Rejected (External e)) t)
        | None => t
        end
      else t
  | TimerFired =>
      if timerArmed t then
        let t := mkTransaction (log t) (promise t) (socketOpen t) false
                   (listening t) (sendPending t) in
        settle (Rejected (hostUnavailable ip port)) (close t)
      else t
  | Message message =>
      if socketOpen t && listening t then
        onMessage this opcode message
          (mkTransaction (log t) (promise t) (socketOpen t) (timerArmed t)
             false (sendPending t))
      else t
  end.

Definition run (this : SampQueryOptions) (ip : string) (port : Z)
    (opcode : SampQueryOpcode) (events : list event) (t : transaction)
  : transaction :=
  fold_left (step this ip port opcode) events t.

Definition idle : transaction := mkTransaction [] None false false false false.

(** The synchronous part of [request] from [dgram.createSocket] to
    [socket.once]: the socket is created before the packet is built.
    [socket.send] takes a port from 1 to 65535; the call with another port,
    like a packet that [requestStream] does not follow, has no value
    here.  (With another port [socket.send] throws at once: the call is
    rejected with the socket created and left open, no timer set and no
    handler installed.  The statements about what a call can do are made
    for the calls that are followed, see [followed].) *)
Definition start (ip : string) (port timeout : Z) (opcode : SampQueryOpcode)
    (t : transaction) : option transaction :=
  let t := call CreateSocket t in
  match requestStream ip port opcode with
  | None => None
  | Some bs =>
      if (1 <=? port) && (port <=? 65535) then
        let t := call (Send (sentBytes bs) port ip) t in
        let t := call (SetTimeout timeout) t in
        let t := call OnceMessage t in
        Some (mkTransaction (log t) (promise t) true true true true)
      else None
  end.

(** The bindings of [request] after the destructuring defaults and the
    three [if (!x)] lines. *)
Definition requestIp (this opts : SampQueryOptions) : string :=
  defaultIp (orDefault (ip opts) (ip this)).
Definition requestPort (this opts : SampQueryOptions) : Z :=
  defaultPort (orDefault (port opts) (port this)).
Definition requestTimeout (this opts : SampQueryOptions) : Z :=
  defaultTimeout (orDefault (timeout opts) (timeout this)).
Definition requestResolveHost (this opts : SampQueryOptions) : bool :=
  defaultResolveHost (orDefault (resolveHost opts) (resolveHost this)).

(** [request]: [this] holds [this.options], [opts] the argument, [dns] the
    answer of [resolveDns] (a rejection or the first address), [events]
    what the event loop delivers afterwards.  A rejection of [resolveDns]
    rejects the call before the socket exists. *)
Definition request (this opts : SampQueryOptions) (opcode : SampQueryOpcode)
    (dns : string -> string + string) (events : list event)
  : option transaction :=
  let ip := requestIp this opts in
  let port := requestPort this opts in
  let timeout := requestTimeout this opts in
  let exchange (ip : string) (t : transaction) :=
    match start ip port timeout opcode t with
    | None => None
    | Some t => Some (run this ip port opcode events t)
    end in
  if requestResolveHost this opts
  then match dns ip with
       | inl e => Some (settle (Rejected (External e)) (call (DnsResolve ip) idle))
       | inr address => exchange address (call (DnsResolve ip) idle)
       end
  else exchange ip idle.

(** The address the packet is built from and sent to. *)
Definition targetIp (this opts : SampQueryOptions) (dns : string -> string + string)
  : string :=
  if requestResolveHost this opts
  then match dns (requestIp this opts) with
       | inl _ => requestIp this opts
       | inr address => address
       end
  else requestIp this opts.

(** How the promise of a call stands. *)
Definition outcome (t : option transaction) : option settlement :=
  match t with
  | Some t => promise t
  | None => None
  end.

(** The number of [socket.close()] calls of a transaction. *)
Definition closes (t : transaction) : nat :=
  List.length (filter (fun a => match a with Close => true | _ => false end) (log t)).

(** ** Replies on the wire (spec, section 4.3 and section 6) *)

Definition u16 (n : Z) : list Z := [n mod 256; n / 256].
Definition u32 (n : Z) : list Z :=
  [n mod 256; (n / 256) mod 256; (n / 65536) mod 256; n / 16777216].

(** A text field behind a uint8, respectively a uint32, length prefix. *)
Definition field8 (raw : list Z) : list Z := Z.of_nat (List.length raw) :: raw.
Definition field32 (raw : list Z) : list Z := u32 (Z.of_nat (List.length raw)) ++ raw.

(** Payload of an ['i'] reply. *)
Definition wireInfo (closed players maxPlayers : Z) (serverName gameModeName language : list Z)
  : list Z :=
  [closed] ++ u16 players ++ u16 maxPlayers
  ++ field32 serverName ++ field32 gameModeName ++ field32 language.

(** A player on the wire: id, raw name, score, ping. *)
Record wirePlayer : Type := mkWirePlayer {
  wId : Z; wName : list Z; wScore : Z; wPing : Z
}.

Definition wirePlayerBytes (p : wirePlayer) : list Z :=
  [wId p] ++ field8 (wName p) ++ u32 (wScore p) ++ u32 (wPing p).

(** Payload of a ['d'] reply: the count, then the records. *)
Definition wirePlayersDetailed (ps : list wirePlayer) : list Z :=
  u16 (Z.of_nat (List.length ps)) ++ List.concat (map wirePlayerBytes ps).

Definition decodedPlayer (p : wirePlayer) : SampQueryPlayer :=
  mkPlayer (wId p) (decodeWin1251String (wName p)) (wScore p) (wPing p).

(** Payload of an ['r'] reply: the count, then name and value fields. *)
Definition wireRules (rs : list (list Z * list Z)) : list Z :=
  u16 (Z.of_nat (List.length rs))
  ++ List.concat (map (fun r => field8 (fst r) ++ field8 (snd r)) rs).

(** Payload of a ['c'] reply: the count, then name and score. *)
Definition wirePlayers (ps : list (list Z * Z)) : list Z :=
  u16 (Z.of_nat (List.length ps))
  ++ List.concat (map (fun p => field8 (fst p) ++ u32 (snd p)) ps).

(** The 11 bytes a server puts before the payload. *)
Definition header : list Z := [83; 65; 77; 80; 127; 0; 0; 1; 97; 30; 105].

(** ** Reading a packet back, and the text of a result *)

(** A request parsed back as 4 raw bytes, 4 uint8s, uint8, uint8, uint8:
    magic tag, octets, port low, port high, opcode. *)
Definition parseRequest : BitStream.Read (list Z * list Z * Z * Z * Z) :=
  (magic <- BitStream.readBytes 4 ;;
   a <- BitStream.readUInt8 ;;
   b <- BitStream.readUInt8 ;;
   c <- BitStream.readUInt8 ;;
   d <- BitStream.readUInt8 ;;
   low <- BitStream.readUInt8 ;;
   high <- BitStream.readUInt8 ;;
   op <- BitStream.readUInt8 ;;
   pure (magic, [a; b; c; d], low, high, op))%read.

(** The value of a read, the stream left aside. *)
Definition evalRead {A} (m : BitStream.Read A) (bs : BitStream.t) : BitStream.fault + A :=
  match m bs with
  | inl f => inl f
  | inr (a, _) => inr a
  end.

(** Every string of a result. *)
Definition texts (v : SampQueryResult) : list text :=
  match v with
  | InfoResult info => [serverName info; gameModeName info; language info]
  | RulesResult rules => flat_map (fun r => [ruleName r; ruleValue r]) rules
  | PlayersDetailedResult ps => map name ps
  | PlayersResult ps => map statName ps
  end.

(** [raw] is a run of consecutive bytes of [l]. *)
Definition segment (raw l : list Z) : Prop :=
  exists before after, l = before ++ raw ++ after.

(** A dotted address from its parts. *)
Definition dotted (parts : list string) : string := String.concat "." parts.

Definition isOctet (part : string) (o : Z) : Prop :=
  toNumber part = Some o /\ 0 <= o < 256.

(** ** Vocabulary of the statements *)

(** The cursor of a reader stays within its storage. *)
Definition wf (bs : BitStream.t) : Prop :=
  (BitStream.readOffset bs <= List.length (BitStream.buffer bs))%nat.

(** On any reader that has [input] left, [m] returns [a] and leaves [rest],
    over the same storage. *)
Definition yields {A} (m : BitStream.Read A) (input : list Z) (a : A) (rest : list Z)
  : Prop :=
  forall bs, wf bs -> BitStream.remaining bs = input ->
    exists bs', m bs = inr (a, bs') /\ wf bs' /\ BitStream.remaining bs' = rest
                /\ BitStream.buffer bs' = BitStream.buffer bs.

(** A read keeps the storage and the cursor in range, and gives no byte
    back. *)
Definition steady {A} (m : BitStream.Read A) : Prop :=
  forall bs a bs', wf bs -> m bs = inr (a, bs') ->
    BitStream.buffer bs' = BitStream.buffer bs /\ wf bs'
    /\ (List.length (BitStream.remaining bs') <= List.length (BitStream.remaining bs))%nat.

(** A loop run with fuel above the bytes left is not cut short. *)
Definition within {A} (m : BitStream.Read (option A)) (fuel : nat) : Prop :=
  forall bs bs', wf bs -> (List.length (BitStream.remaining bs) < fuel)%nat ->
    m bs <> inr (None, bs').

(** Faults of a read are truncations only. *)
Definition onlyTruncated {A} (m : BitStream.Read A) : Prop :=
  forall bs f, m bs = inl f -> f = BitStream.TruncatedBuffer.

(** The rule a pair of raw fields decodes to. *)
Definition decodedRule (r : list Z * list Z) : SampQueryRule :=
  mkRule (decodeWin1251String (fst r)) (decodeWin1251String (snd r)).

(** The reader of the handler once the header is sliced away. *)
Definition replyReader (message : list Z) : BitStream.t :=
  BitStream.mk (skipn 11 message) 0 0.

(** [txt] is the windows-1251 reading of a run of bytes of [storage]. *)
Definition win1251Of (storage : list Z) (txt : text) : Prop :=
  exists raw, segment raw storage /\ txt = map win1251Char raw.

(** Whatever [m] returns on a reader over [storage] satisfies [Q]. *)
Definition returns {A} (storage : list Z) (m : BitStream.Read A) (Q : A -> Prop)
  : Prop :=
  forall bs a bs', wf bs -> BitStream.buffer bs = storage ->
    m bs = inr (a, bs') -> Q a.

(** A datagram can be delivered to the handler: the socket is open and the
    [once] handler has not run. *)
Definition awaiting (t : transaction) : Prop :=
  socketOpen t = true /\ listening t = true.

(** No callback is left that could act on the transaction. *)
Definition quiet (t : transaction) : Prop :=
  timerArmed t = false /\ sendPending t = false
  /\ (socketOpen t = false \/ listening t = false).

(** While a datagram can still be delivered, the promise is pending, the
    timer is armed and the socket has not been closed. *)
Definition untouched (t : transaction) : Prop :=
  awaiting t -> promise t = None /\ timerArmed t = true /\ closes t = 0%nat.

(** The transaction when the socket is about to be created: idle, with
    the name resolution logged when it was asked for. *)
Definition lookedUp (this opts : SampQueryOptions) : transaction :=
  if requestResolveHost this opts
  then call (DnsResolve (requestIp this opts)) idle
  else idle.

(** The transaction as the handler finds it: [once] has removed it from
    the socket. *)
Definition handling (t : transaction) : transaction :=
  mkTransaction (log t) (promise t) (socketOpen t) (timerArmed t) false (sendPending t).

(** [m] faults with [f] on any reader that has [input] left. *)
Definition faults {A} (m : BitStream.Read A) (input : list Z) (f : BitStream.fault)
  : Prop :=
  forall bs, wf bs -> BitStream.remaining bs = input -> m bs = inl f.

(** The address the call goes to is [address]: the one of the options, or
    the answer of the name resolution when it is asked for. *)
Definition addressResolved (this opts : SampQueryOptions)
    (dns : string -> string + string) (address : string) : Prop :=
  if requestResolveHost this opts
  then dns (requestIp this opts) = inr address
  else requestIp this opts = address.

(** A call with no option set, and a resolver that finds no host. *)
Definition noOptions : SampQueryOptions := mkOptions None None None None.
Definition noDns : string -> string + string := fun _ => inl "ENOTFOUND"%string.

(** Two players on the wire: one named "A", one with an empty name. *)
Definition playerA : wirePlayer := mkWirePlayer 0 [65] 1 2.
Definition playerNameless : wirePlayer := mkWirePlayer 1 [] 3 4.

(** A string without a dot. *)
Fixpoint noDot (s : string) : Prop :=
  match s with
  | EmptyString => True
  | String c rest => c <> "."%char /\ noDot rest
  end.

(** The request of section 6: the tag, the octets, the port low byte
    first, the character code of the opcode. *)
Definition wireRequest (octets : list Z) (port : Z) (opcode : SampQueryOpcode)
  : list Z :=
  [83; 65; 77; 80] ++ octets
  ++ [Z.land port 0xFF; Z.land (Z.shiftr port 8) 0xFF; charCode opcode].

(** ** The facade of [SampQuery] *)

(** [getServerInfo], [getServerRules], [getServerPlayers] and
    [getServerPlayersDetailed]: [request] with the options spread and the
    opcode set; the plain player list asks ['c'], the detailed one ['d']. *)
Definition getServerInfo (this options : SampQueryOptions) :=
  request this options op_i.
Definition getServerRules (this options : SampQueryOptions) :=
  request this options op_r.
Definition getServerPlayers (this options : SampQueryOptions) :=
  request this options op_c.
Definition getServerPlayersDetailed (this options : SampQueryOptions) :=
  request this options op_d.

(** An [await] on the promise of a call: still pending, a value, or the
    rejection thrown on. *)
Inductive awaited (A : Type) : Type :=
| Waiting
| Fulfilled (a : A)
| Failed (why : reason).
Arguments Waiting {A}.
Arguments Fulfilled {A} a.
Arguments Failed {A} why.

(** The object [getServer] returns. *)
Module Server.
Record t : Type := mk {
  info : SampQueryResult;
  rules : SampQueryResult;
  players : SampQueryResult
}.
End Server.

(** What the world answers to the request of an opcode: the name
    resolution and the events of its socket. *)
Definition world : Type :=
  SampQueryOpcode -> (string -> string + string) * list event.

(** [getServer]: the three requests ['i'], ['r'], ['d'], each awaited
    before the next is made; a rejection ends the call.  The transactions
    made are returned with the result, oldest first. *)
Definition getServer (this options : SampQueryOptions) (w : world)
  : option (list transaction * awaited Server.t) :=
  match request this options op_i (fst (w op_i)) (snd (w op_i)) with
  | None => None
  | Some t1 =>
      match promise t1 with
      | None => Some ([t1], Waiting)
      | Some (Rejected why) => Some ([t1], Failed why)
      | Some (Resolved info) =>
          match request this options op_r (fst (w op_r)) (snd (w op_r)) with
          | None => None
          | Some t2 =>
              match promise t2 with
              | None => Some ([t1; t2], Waiting)
              | Some (Rejected why) => Some ([t1; t2], Failed why)
              | Some (Resolved rules) =>
                  match request this options op_d (fst (w op_d)) (snd (w op_d)) with
                  | None => None
                  | Some t3 =>
                      Some ([t1; t2; t3],
                            match promise t3 with
                            | None => Waiting
                            | Some (Rejected why) => Failed why
                            | Some (Resolved players) =>
                                Fulfilled (Server.mk info rules players)
                            end)
                  end
              end
          end
      end
  end.

(** [getServerPing]: [startTime] and [endTime] are the two readings of
    [Date.now()], before the request and after its promise is fulfilled. *)
Definition getServerPing (this options : SampQueryOptions)
    (dns : string -> string + string) (events : list event)
    (startTime endTime : Z) : option (transaction * awaited Z) :=
  match request this options op_i dns events with
  | None => None
  | Some t =>
      Some (t, match promise t with
               | None => Waiting
               | Some (Rejected why) => Failed why
               | Some (Resolved _) => Fulfilled (endTime - startTime)
               end)
  end.

(** ** Further vocabulary *)

(** The opcode a result has the shape of. *)
Definition shapeOf (v : SampQueryResult) : SampQueryOpcode :=
  match v with
  | InfoResult _ => op_i
  | RulesResult _ => op_r
  | PlayersDetailedResult _ => op_d
  | PlayersResult _ => op_c
  end.

(** [v] is what the handler decodes from a datagram of [events]. *)
Definition decodedFrom (opcode : SampQueryOpcode) (events : list event)
    (v : SampQueryResult) : Prop :=
  exists message bs,
    In (Message message) events /\ (11 <= List.length message)%nat
    /\ decode opcode (replyReader message) = inr (Some v, bs).

(** No send callback of [events] reports an error. *)
Definition sendsSucceed (events : list event) : Prop :=
  forall e, ~ In (SendDone (Some e)) events.

(** The closes made so far and those that can still come: one of the send
    callback, one of the timer or the handler. *)
Definition closesInSight (t : transaction) : nat :=
  (closes t + (if sendPending t then 1 else 0)
   + (if timerArmed t || (socketOpen t && listening t) then 1 else 0))%nat.

(** The same without the send callback. *)
Definition closesInSightOfReply (t : transaction) : nat :=
  (closes t + (if timerArmed t || (socketOpen t && listening t) then 1 else 0))%nat.

(** An open socket is either still served by the timer and the handler, or
    left behind by the handler on a short datagram. *)
Definition openSocketAccounted (this : SampQueryOptions) (t : transaction) : Prop :=
  socketOpen t = true ->
  (listening t = true /\ timerArmed t = true /\ promise t = None)
  \/ (listening t = false /\ timerArmed t = false
      /\ promise t = Some (Rejected (invalidMessage this))).

(** The target of a call is an address of decimal octets and a port
    [socket.send] takes. *)
Definition validTarget (this opts : SampQueryOptions)
    (dns : string -> string + string) : Prop :=
  exists parts octets,
    parts <> [] /\ addressResolved this opts dns (dotted parts)
    /\ Forall2 isOctet parts octets /\ 1 <= requestPort this opts <= 65535.

(** A successful read uses up at least [n] bytes. *)
Definition consumes {A} (m : BitStream.Read A) (n : nat) : Prop :=
  forall bs a bs', wf bs -> m bs = inr (a, bs') ->
    (List.length (BitStream.remaining bs') + n <= List.length (BitStream.remaining bs))%nat.

(** The fewest payload bytes a reply of an opcode can be decoded from:
    the fixed fields of ['i'] with three empty texts, a count for the
    others. *)
Definition minPayload (opcode : SampQueryOpcode) : nat :=
  match opcode with
  | op_i => 17
  | _ => 2
  end.

(** The layout the loop of ['d'] reads all its records from: a count in
    front of every record, and one more after the last. *)
Fixpoint wireRecounted (bounds : list Z) (ps : list wirePlayer) (stop : Z) : list Z :=
  match bounds, ps with
  | b :: bounds', p :: ps' => u16 b ++ wirePlayerBytes p ++ wireRecounted bounds' ps' stop
  | _, _ => u16 stop
  end.

(** Each count lets the loop go on: the count before record [i] is above
    [i]. *)
Fixpoint countsAbove (i : Z) (bounds : list Z) : Prop :=
  match bounds with
  | [] => True
  | b :: bounds' => i < b /\ countsAbove (i + 1) bounds'
  end.

(** The same for ['c']: a count before every name and score. *)
Fixpoint wireStatsRecounted (bounds : list Z) (ps : list (list Z * Z)) (stop : Z)
  : list Z :=
  match bounds, ps with
  | b :: bounds', p :: ps' =>
      u16 b ++ field8 (fst p) ++ u32 (snd p) ++ wireStatsRecounted bounds' ps' stop
  | _, _ => u16 stop
  end.

Definition decodedStat (p : list Z * Z) : SampQueryPlayerStat :=
  mkStat (decodeWin1251String (fst p)) (snd p).

(** A world that answers every request with the send callback and one
    datagram. *)
Definition answering (dns : string -> string + string)
    (reply : SampQueryOpcode -> list Z) : world :=
  fun opcode => (dns, [SendDone None; Message (reply opcode)]).

(** The packets handed to [socket.send] in a log, oldest first. *)
Fixpoint packetsSent (calls : list action) : list (list Z) :=
  match calls with
  | [] => []
  | Send packet _ _ :: rest => packet :: packetsSent rest
  | _ :: rest => packetsSent rest
  end.

(** What a transaction asked for: the last byte of each packet it sent,
    the place of the opcode in a request. *)
Definition asked (t : transaction) : list Z :=
  map (fun packet => last packet 0) (packetsSent (log t)).

(** The transaction as [request] leaves it when it returns its promise:
    everything armed, nothing settled, nothing closed. *)
Definition fresh (t : transaction) : Prop :=
  promise t = None /\ socketOpen t = true /\ timerArmed t = true
  /\ listening t = true /\ sendPending t = true /\ closes t = 0%nat.

(** The calls the callbacks make: clearing the timer and closing the
    socket. *)
Definition callbackCall (a : action) : Prop := a = ClearTimeout \/ a = Close.

(** The empty list of an opcode that returns a list. *)
Definition emptyList (opcode : SampQueryOpcode) : option SampQueryResult :=
  match opcode with
  | op_i => None
  | op_r => Some (RulesResult [])
  | op_d => Some (PlayersDetailedResult [])
  | op_c => Some (PlayersResult [])
  end.

(** The calls this development follows to their end: those the name
    resolution rejects, and those to a valid target. *)
Definition followed (this opts : SampQueryOptions)
    (dns : string -> string + string) : Prop :=
  (requestResolveHost this opts = true
   /\ exists e, dns (requestIp this opts) = inl e)
  \/ validTarget this opts dns.

(** A datagram holds bytes. *)
Definition isByte (b : Z) : Prop := 0 <= b < 256.

(** The players and the names and scores a run of wire records decodes
    to, every name read through the code page. *)
Definition playersOf (ps : list wirePlayer) : list SampQueryPlayer :=
  map (fun p => mkPlayer (wId p) (map win1251Char (wName p)) (wScore p) (wPing p)) ps.

Definition statsOf (ps : list (list Z * Z)) : list SampQueryPlayerStat :=
  map (fun p => mkStat (map win1251Char (fst p)) (snd p)) ps.

Definition rulesOf (rs : list (list Z * list Z)) : list SampQueryRule :=
  map (fun r => mkRule (map win1251Char (fst r)) (map win1251Char (snd r))) rs.

(** [laidOut opcode payload v]: the payload is the fields of a reply of
    the opcode in the order its decoder reads them, followed by any bytes,
    and [v] holds these fields, each text field as the windows-1251 reading
    of its own bytes. *)
Inductive laidOut : SampQueryOpcode -> list Z -> SampQueryResult -> Prop :=
| laidOut_i c p mp sn gm lang rest :
    laidOut op_i (wireInfo c p mp sn gm lang ++ rest)
      (InfoResult (mkInfo (negb (c =? 0)) p mp (map win1251Char sn)
                     (map win1251Char gm) (map win1251Char lang)))
| laidOut_r rs rest :
    laidOut op_r (wireRules rs ++ rest) (RulesResult (rulesOf rs))
| laidOut_d bounds ps stop rest :
    List.length bounds = List.length ps -> countsAbove 0 bounds ->
    stop <= Z.of_nat (List.length ps) ->
    laidOut op_d (wireRecounted bounds ps stop ++ rest)
      (PlayersDetailedResult (playersOf ps))
| laidOut_c bounds ps stop rest :
    List.length bounds = List.length ps -> countsAbove 0 bounds ->
    stop <= Z.of_nat (List.length ps) ->
    laidOut op_c (wireStatsRecounted bounds ps stop ++ rest)
      (PlayersResult (statsOf ps)).

(** A reader with its cursor in range and bytes left to read. *)
Definition sound (bs : BitStream.t) : Prop :=
  wf bs /\ Forall isByte (BitStream.remaining bs).

(** * Properties *)

(** ** The reader *)

Module ReadFacts.
Import BitStream.

Lemma yields_ret {A} (a : A) input : yields (ret a) input a input.
Proof. intros bs Hwf Hrem. exists bs. repeat split; assumption. Qed.

Lemma yields_bind {A B} (m : Read A) (k : A -> Read B) input a mid b rest :
  yields m input a mid -> yields (k a) mid b rest ->
  yields (bind m k) input b rest.
Proof.
  intros Hm Hk bs Hwf Hrem.
  destruct (Hm bs Hwf Hrem) as (bs1 & E1 & W1 & R1 & B1).
  destruct (Hk bs1 W1 R1) as (bs2 & E2 & W2 & R2 & B2).
  exists bs2. unfold bind. rewrite E1. repeat split; try assumption.
  congruence.
Qed.

Lemma yields_readBytes raw rest :
  yields (readBytes (Z.of_nat (List.length raw))) (raw ++ rest) raw rest.
Proof.
  intros bs Hwf Hrem. unfold readBytes, remaining, wf in *.
  rewrite Nat2Z.id.
  assert (Hlen : (List.length (buffer bs) - readOffset bs
                  = List.length raw + List.length rest)%nat).
  { rewrite <- length_skipn, Hrem, length_app. reflexivity. }
  replace (readOffset bs + List.length raw <=? List.length (buffer bs))%nat
    with true by (symmetry; apply Nat.leb_le; lia).
  rewrite Hrem, firstn_app, Nat.sub_diag, firstn_all, firstn_O, app_nil_r.
  eexists. split; [reflexivity|]. cbn [buffer readOffset writeOffset].
  repeat split.
  - lia.
  - rewrite Nat.add_comm, <- skipn_skipn, Hrem, skipn_app, Nat.sub_diag, skipn_all.
    reflexivity.
Qed.

Lemma littleEndian_u16 n : littleEndian (u16 n) = n.
Proof.
  unfold u16, littleEndian. pose proof (Z.div_mod n 256). lia.
Qed.

Lemma littleEndian_u32 n : littleEndian (u32 n) = n.
Proof.
  unfold u32, littleEndian.
  pose proof (Z.div_mod n 256).
  pose proof (Z.div_mod (n / 256) 256).
  pose proof (Z.div_mod (n / 256 / 256) 256).
  replace (n / 65536) with (n / 256 / 256)
    by (rewrite Z.div_div by lia; reflexivity).
  replace (n / 16777216) with (n / 256 / 256 / 256)
    by (rewrite !Z.div_div by lia; reflexivity).
  lia.
Qed.

Lemma yields_readUInt8 b rest : yields readUInt8 (b :: rest) b rest.
Proof.
  unfold readUInt8, readUInt.
  eapply yields_bind; [exact (yields_readBytes [b] rest)|].
  replace (littleEndian [b]) with b by (unfold littleEndian; lia).
  apply yields_ret.
Qed.

Lemma yields_readUInt16 n rest : yields readUInt16 (u16 n ++ rest) n rest.
Proof.
  unfold readUInt16, readUInt.
  eapply yields_bind; [exact (yields_readBytes (u16 n) rest)|].
  rewrite littleEndian_u16. apply yields_ret.
Qed.

Lemma yields_readUInt32 n rest : yields readUInt32 (u32 n ++ rest) n rest.
Proof.
  unfold readUInt32, readUInt.
  eapply yields_bind; [exact (yields_readBytes (u32 n) rest)|].
  rewrite littleEndian_u32. apply yields_ret.
Qed.

Lemma yields_readBoolean b rest :
  yields readBoolean (b :: rest) (negb (b =? 0)) rest.
Proof.
  unfold readBoolean.
  eapply yields_bind; [apply yields_readUInt8 | apply yields_ret].
Qed.

Lemma yields_string raw rest :
  yields (bsReadCP1251String (Z.of_nat (List.length raw))) (raw ++ rest)
    (decodeWin1251String raw) rest.
Proof.
  unfold bsReadCP1251String.
  eapply yields_bind; [apply yields_readBytes | apply yields_ret].
Qed.

(** A text field behind its uint8 length. *)
Lemma yields_field8 raw rest :
  yields (bind readUInt8 bsReadCP1251String) (field8 raw ++ rest)
    (decodeWin1251String raw) rest.
Proof.
  unfold field8. cbn [app].
  eapply yields_bind; [apply yields_readUInt8 | apply yields_string].
Qed.

(** A text field behind its uint32 length. *)
Lemma yields_field32 raw rest :
  yields (bind readUInt32 bsReadCP1251String) (field32 raw ++ rest)
    (decodeWin1251String raw) rest.
Proof.
  unfold field32. rewrite <- app_assoc.
  eapply yields_bind; [apply yields_readUInt32 | apply yields_string].
Qed.

(** The ['i'] decoder on the layout of section 4.3: the six fields in
    wire order, and nothing else consumed. *)
Lemma yields_readInfo c p mp sn gm lang rest :
  yields readInfo (wireInfo c p mp sn gm lang ++ rest)
    (mkInfo (negb (c =? 0)) p mp (decodeWin1251String sn)
       (decodeWin1251String gm) (decodeWin1251String lang)) rest.
Proof.
  unfold readInfo, wireInfo. rewrite <- !app_assoc. cbn [app].
  eapply yields_bind; [apply yields_readBoolean|].
  eapply yields_bind; [apply yields_readUInt16|].
  eapply yields_bind; [apply yields_readUInt16|].
  unfold field32. rewrite <- !app_assoc.
  eapply yields_bind; [apply yields_readUInt32|].
  eapply yields_bind; [apply yields_string|].
  eapply yields_bind; [apply yields_readUInt32|].
  eapply yields_bind; [apply yields_string|].
  eapply yields_bind; [apply yields_readUInt32|].
  eapply yields_bind; [apply yields_string|].
  apply yields_ret.
Qed.

Lemma yields_readRulesLoop rs : forall acc rest,
  yields (readRulesLoop (List.length rs) acc)
    (List.concat (map (fun r => field8 (fst r) ++ field8 (snd r)) rs) ++ rest)
    (acc ++ map decodedRule rs) rest.
Proof.
  induction rs as [|r rs IH]; intros acc rest.
  - cbn. rewrite app_nil_r. apply yields_ret.
  - cbn [List.length map List.concat readRulesLoop]. rewrite <- !app_assoc.
    unfold field8 at 1 2. cbn [app].
    eapply yields_bind; [apply yields_readUInt8|].
    eapply yields_bind; [apply yields_string|].
    eapply yields_bind; [apply yields_readUInt8|].
    eapply yields_bind; [apply yields_string|].
    replace (acc ++ decodedRule r :: map decodedRule rs)
      with ((acc ++ [decodedRule r]) ++ map decodedRule rs)
      by (rewrite <- app_assoc; reflexivity).
    apply IH.
Qed.

(** The ['r'] decoder reads its count once and returns every pair of the
    reply, in wire order. *)
Lemma yields_readRules rs rest :
  yields readRules (wireRules rs ++ rest) (map decodedRule rs) rest.
Proof.
  unfold readRules, wireRules. rewrite <- app_assoc.
  eapply yields_bind; [apply yields_readUInt16|].
  rewrite Nat2Z.id. apply (yields_readRulesLoop rs []).
Qed.

(** *** What a successful read leaves behind *)

Lemma readBytes_inr n bs raw bs' :
  wf bs -> readBytes n bs = inr (raw, bs') ->
  buffer bs' = buffer bs /\ wf bs'
  /\ (List.length (remaining bs') + Z.to_nat n = List.length (remaining bs))%nat
  /\ segment raw (buffer bs).
Proof.
  unfold readBytes, wf, remaining. intros Hwf H.
  destruct (readOffset bs + Z.to_nat n <=? List.length (buffer bs))%nat eqn:Hle;
    [|discriminate].
  apply Nat.leb_le in Hle. inversion H; subst; clear H.
  cbn [buffer readOffset writeOffset]. repeat split.
  - exact Hle.
  - rewrite !length_skipn. lia.
  - exists (firstn (readOffset bs) (buffer bs)),
           (skipn (Z.to_nat n) (skipn (readOffset bs) (buffer bs))).
    now rewrite !firstn_skipn.
Qed.

Lemma readBytes_inl n bs f : readBytes n bs = inl f -> f = TruncatedBuffer.
Proof.
  unfold readBytes.
  destruct (readOffset bs + Z.to_nat n <=? List.length (buffer bs))%nat;
    [discriminate | congruence].
Qed.

(** *** Reads keep the storage and never give bytes back *)

Lemma steady_ret {A} (a : A) : steady (ret a).
Proof.
  intros bs a' bs' W H. inversion H; subst. repeat split; auto.
Qed.

Lemma steady_bind {A B} (m : Read A) (k : A -> Read B) :
  steady m -> (forall a, steady (k a)) -> steady (bind m k).
Proof.
  intros Hm Hk bs b bs' W H. unfold bind in H.
  destruct (m bs) as [f | [a bs1]] eqn:E; [discriminate|].
  destruct (Hm _ _ _ W E) as (B1 & W1 & L1).
  destruct (Hk a _ _ _ W1 H) as (B2 & W2 & L2).
  repeat split; [congruence | assumption | lia].
Qed.

Lemma steady_readBytes n : steady (readBytes n).
Proof.
  intros bs raw bs' W H.
  destruct (readBytes_inr _ _ _ _ W H) as (B & W' & L & _).
  repeat split; [assumption | assumption | lia].
Qed.

Lemma steady_readUInt w : steady (readUInt w).
Proof.
  apply steady_bind; [apply steady_readBytes | intro; apply steady_ret].
Qed.

Lemma steady_string n : steady (bsReadCP1251String n).
Proof.
  apply steady_bind; [apply steady_readBytes | intro; apply steady_ret].
Qed.

Create HintDb reads.
#[local] Hint Resolve steady_ret steady_readBytes steady_readUInt steady_string
  : reads.
#[local] Hint Extern 1 (steady readUInt8) => apply steady_readUInt : reads.
#[local] Hint Extern 1 (steady readUInt16) => apply steady_readUInt : reads.
#[local] Hint Extern 1 (steady readUInt32) => apply steady_readUInt : reads.

(** *** The loops of ['d'] and ['c'] end within their fuel *)

Lemma within_bind {A B} (m : Read A) (k : A -> Read (option B)) n :
  steady m -> (forall a, within (k a) n) -> within (bind m k) n.
Proof.
  intros Hm Hk bs bs' W Hn H. unfold bind in H.
  destruct (m bs) as [f | [a bs1]] eqn:E; [discriminate|].
  destruct (Hm _ _ _ W E) as (_ & W1 & L1).
  apply (Hk a bs1 bs' W1); [lia | exact H].
Qed.

(** The test of the loop uses up two bytes. *)
Lemma within_test {B} (k : Z -> Read (option B)) n :
  (forall bound, within (k bound) n) -> within (bind readUInt16 k) (S n).
Proof.
  intros Hk bs bs' W Hn H. unfold bind in H.
  destruct (readUInt16 bs) as [f | [bound bs1]] eqn:E; [discriminate|].
  unfold readUInt16, readUInt, bind, ret in E.
  destruct (readBytes 2 bs) as [f | [raw bs2]] eqn:E2; [discriminate|].
  inversion E; subst; clear E.
  destruct (readBytes_inr _ _ _ _ W E2) as (_ & W1 & L1 & _).
  change (Z.to_nat 2) with 2%nat in L1.
  apply (Hk (littleEndian raw) bs1 bs' W1); [lia | exact H].
Qed.

Lemma within_some {B} (b : B) n : within (ret (Some b)) n.
Proof. intros bs bs' _ _ H. discriminate H. Qed.

Lemma readPlayersDetailedLoop_within fuel : forall i acc,
  within (readPlayersDetailedLoop fuel i acc) fuel.
Proof.
  induction fuel as [|fuel IH]; intros i acc.
  - intros bs bs' _ Hn. lia.
  - cbn [readPlayersDetailedLoop]. apply within_test. intros bound.
    destruct (i <? bound); [|apply within_some].
    repeat (apply within_bind; [auto with reads | intro]).
    apply IH.
Qed.

Lemma readPlayersLoop_within fuel : forall i acc,
  within (readPlayersLoop fuel i acc) fuel.
Proof.
  induction fuel as [|fuel IH]; intros i acc.
  - intros bs bs' _ Hn. lia.
  - cbn [readPlayersLoop]. apply within_test. intros bound.
    destruct (i <? bound); [|apply within_some].
    repeat (apply within_bind; [auto with reads | intro]).
    apply IH.
Qed.

(** [decode] always has an answer: no loop is cut short by [loopFuel]. *)
Lemma decode_total opcode bs bs' : wf bs -> decode opcode bs <> inr (None, bs').
Proof.
  intros W H. destruct opcode; cbn [decode] in H; unfold bind, ret in H.
  - destruct (readInfo bs) as [f | [a bs1]]; discriminate.
  - destruct (readRules bs) as [f | [a bs1]]; discriminate.
  - destruct (readPlayersDetailedLoop (loopFuel bs) 0 [] bs) as [f | [[r|] bs1]] eqn:E;
      try discriminate.
    apply readPlayersDetailedLoop_within in E; [exact E | exact W |].
    unfold loopFuel. lia.
  - destruct (readPlayersLoop (loopFuel bs) 0 [] bs) as [f | [[r|] bs1]] eqn:E;
      try discriminate.
    apply readPlayersLoop_within in E; [exact E | exact W |].
    unfold loopFuel. lia.
Qed.

(** *** The only fault of a decoder is a truncation *)

Lemma onlyTruncated_ret {A} (a : A) : onlyTruncated (ret a).
Proof. intros bs f H. discriminate H. Qed.

Lemma onlyTruncated_bind {A B} (m : Read A) (k : A -> Read B) :
  onlyTruncated m -> (forall a, onlyTruncated (k a)) -> onlyTruncated (bind m k).
Proof.
  intros Hm Hk bs f H. unfold bind in H.
  destruct (m bs) as [f' | [a bs1]] eqn:E.
  - inversion H; subst. apply (Hm _ _ E).
  - apply (Hk _ _ _ H).
Qed.

Lemma onlyTruncated_readBytes n : onlyTruncated (readBytes n).
Proof. intros bs f H. apply (readBytes_inl _ _ _ H). Qed.

Lemma onlyTruncated_readUInt w : onlyTruncated (readUInt w).
Proof.
  apply onlyTruncated_bind;
    [apply onlyTruncated_readBytes | intro; apply onlyTruncated_ret].
Qed.

Lemma onlyTruncated_string n : onlyTruncated (bsReadCP1251String n).
Proof.
  apply onlyTruncated_bind;
    [apply onlyTruncated_readBytes | intro; apply onlyTruncated_ret].
Qed.

Ltac truncations :=
  repeat first
    [ apply onlyTruncated_ret
    | apply onlyTruncated_string
    | apply onlyTruncated_readUInt
    | apply onlyTruncated_bind; [|intro] ].

Lemma onlyTruncated_readRulesLoop n : forall acc, onlyTruncated (readRulesLoop n acc).
Proof.
  induction n as [|n IH]; intros acc; cbn [readRulesLoop].
  - apply onlyTruncated_ret.
  - unfold readUInt8. truncations. apply IH.
Qed.

Lemma onlyTruncated_readPlayersDetailedLoop fuel : forall i acc,
  onlyTruncated (readPlayersDetailedLoop fuel i acc).
Proof.
  induction fuel as [|fuel IH]; intros i acc; cbn [readPlayersDetailedLoop].
  - apply onlyTruncated_ret.
  - unfold readUInt16. apply onlyTruncated_bind; [apply onlyTruncated_readUInt|].
    intro bound. destruct (i <? bound); [|apply onlyTruncated_ret].
    unfold readUInt8, readUInt32. truncations. apply IH.
Qed.

Lemma onlyTruncated_readPlayersLoop fuel : forall i acc,
  onlyTruncated (readPlayersLoop fuel i acc).
Proof.
  induction fuel as [|fuel IH]; intros i acc; cbn [readPlayersLoop].
  - apply onlyTruncated_ret.
  - unfold readUInt16. apply onlyTruncated_bind; [apply onlyTruncated_readUInt|].
    intro bound. destruct (i <? bound); [|apply onlyTruncated_ret].
    unfold readUInt8, readUInt32. truncations. apply IH.
Qed.

Lemma onlyTruncated_decode opcode : onlyTruncated (decode opcode).
Proof.
  destruct opcode; cbn [decode].
  - unfold readInfo, readBoolean, readUInt8, readUInt16, readUInt32. truncations.
  - unfold readRules, readUInt16. truncations.
    apply onlyTruncated_readRulesLoop.
  - intros bs f. revert f. generalize (loopFuel bs). intros fuel f.
    revert bs f. change (onlyTruncated
      (bind (readPlayersDetailedLoop fuel 0 [])
         (fun r => ret (option_map PlayersDetailedResult r)))).
    apply onlyTruncated_bind;
      [apply onlyTruncated_readPlayersDetailedLoop | intro; apply onlyTruncated_ret].
  - intros bs f. revert f. generalize (loopFuel bs). intros fuel f.
    revert bs f. change (onlyTruncated
      (bind (readPlayersLoop fuel 0 [])
         (fun r => ret (option_map PlayersResult r)))).
    apply onlyTruncated_bind;
      [apply onlyTruncated_readPlayersLoop | intro; apply onlyTruncated_ret].
Qed.

(** *** Every string of a result is read through the code page *)

Section Texts.
Variable storage : list Z.

Lemma returns_ret {A} (a : A) (Q : A -> Prop) : Q a -> returns storage (ret a) Q.
Proof. intros HQ bs a' bs' _ _ H. inversion H; subst. exact HQ. Qed.

Lemma returns_bind {A B} (m : Read A) (k : A -> Read B) (Q1 : A -> Prop) Q :
  steady m -> returns storage m Q1 ->
  (forall a, Q1 a -> returns storage (k a) Q) ->
  returns storage (bind m k) Q.
Proof.
  intros Hs Hm Hk bs b bs' W HB H. unfold bind in H.
  destruct (m bs) as [f | [a bs1]] eqn:E; [discriminate|].
  destruct (Hs _ _ _ W E) as (B1 & W1 & _).
  apply (Hk a (Hm _ _ _ W HB E) bs1 b bs' W1); [congruence | exact H].
Qed.

Lemma returns_any {A} (m : Read A) : returns storage m (fun _ => True).
Proof. intros bs a bs' _ _ _. exact I. Qed.

Lemma returns_string n :
  returns storage (bsReadCP1251String n) (win1251Of storage).
Proof.
  intros bs txt bs' W HB H. unfold bsReadCP1251String, bind, ret in H.
  destruct (readBytes n bs) as [f | [raw bs1]] eqn:E; [discriminate|].
  inversion H; subst; clear H.
  destruct (readBytes_inr _ _ _ _ W E) as (_ & _ & _ & S).
  exists raw. split; [exact S | reflexivity].
Qed.

(** One step of a decoder: a number, whose value is of no concern
    here, or a string. *)
Ltac number_read :=
  apply returns_bind with (Q1 := fun _ => True);
    [auto with reads | apply returns_any | intros ? _].
Ltac string_read :=
  apply returns_bind with (Q1 := win1251Of storage);
    [auto with reads | apply returns_string | intros ? ?].

Lemma returns_readInfo :
  returns storage readInfo
    (fun info => Forall (win1251Of storage) (texts (InfoResult info))).
Proof.
  unfold readInfo.
  apply returns_bind with (Q1 := fun _ => True);
    [apply steady_bind; [auto with reads | intro; auto with reads]
    | apply returns_any | intros ? _].
  number_read. number_read. number_read. string_read. number_read. string_read. number_read. string_read.
  apply returns_ret. cbn. repeat constructor; assumption.
Qed.

Lemma returns_readRulesLoop n : forall acc,
  Forall (win1251Of storage) (texts (RulesResult acc)) ->
  returns storage (readRulesLoop n acc)
    (fun rules => Forall (win1251Of storage) (texts (RulesResult rules))).
Proof.
  induction n as [|n IH]; intros acc Hacc; cbn [readRulesLoop].
  - apply returns_ret. exact Hacc.
  - number_read. string_read. number_read. string_read. apply IH.
    cbn [texts] in *. rewrite flat_map_app. apply Forall_app. split; [exact Hacc|].
    cbn. repeat constructor; assumption.
Qed.

Lemma returns_readPlayersDetailedLoop fuel : forall i acc,
  Forall (win1251Of storage) (texts (PlayersDetailedResult acc)) ->
  returns storage (readPlayersDetailedLoop fuel i acc)
    (fun r => forall ps, r = Some ps ->
       Forall (win1251Of storage) (texts (PlayersDetailedResult ps))).
Proof.
  induction fuel as [|fuel IH]; intros i acc Hacc; cbn [readPlayersDetailedLoop].
  - apply returns_ret. discriminate.
  - number_read. destruct (i <? a).
    + number_read. number_read. string_read. number_read. number_read. apply IH.
      cbn [texts] in *. rewrite map_app. apply Forall_app. split; [exact Hacc|].
      cbn. repeat constructor; assumption.
    + apply returns_ret. intros ps E. inversion E; subst. exact Hacc.
Qed.

Lemma returns_readPlayersLoop fuel : forall i acc,
  Forall (win1251Of storage) (texts (PlayersResult acc)) ->
  returns storage (readPlayersLoop fuel i acc)
    (fun r => forall ps, r = Some ps ->
       Forall (win1251Of storage) (texts (PlayersResult ps))).
Proof.
  induction fuel as [|fuel IH]; intros i acc Hacc; cbn [readPlayersLoop].
  - apply returns_ret. discriminate.
  - number_read. destruct (i <? a).
    + number_read. string_read. number_read. apply IH.
      cbn [texts] in *. rewrite map_app. apply Forall_app. split; [exact Hacc|].
      cbn. repeat constructor; assumption.
    + apply returns_ret. intros ps E. inversion E; subst. exact Hacc.
Qed.

Lemma returns_map {A B} (m : Read A) (f : A -> B) (Q1 : A -> Prop) (Q : B -> Prop) :
  returns storage m Q1 -> (forall a, Q1 a -> Q (f a)) ->
  returns storage (bind m (fun a => ret (f a))) Q.
Proof.
  intros Hm Hf bs b bs' W HB H. unfold bind, ret in H.
  destruct (m bs) as [e | [a bs1]] eqn:E; [discriminate|].
  injection H as <- <-. apply Hf. apply (Hm _ _ _ W HB E).
Qed.

Lemma returns_decode opcode :
  returns storage (decode opcode)
    (fun r => forall v, r = Some v -> Forall (win1251Of storage) (texts v)).
Proof.
  destruct opcode; cbn [decode].
  - eapply returns_map; [apply returns_readInfo|].
    intros info Hinfo v E. inversion E; subst. exact Hinfo.
  - eapply returns_map.
    + unfold readRules. number_read. apply returns_readRulesLoop. constructor.
    + intros rules Hrules v E. inversion E; subst. exact Hrules.
  - intros bs r bs' W HB H.
    assert (R : returns storage
                  (bind (readPlayersDetailedLoop (loopFuel bs) 0 [])
                     (fun a => ret (option_map PlayersDetailedResult a)))
                  (fun r => forall v, r = Some v ->
                     Forall (win1251Of storage) (texts v))).
    { eapply returns_map; [apply returns_readPlayersDetailedLoop; constructor|].
      intros [ps|] Hps v E; cbn in E; [|discriminate].
      injection E as <-. apply Hps. reflexivity. }
    exact (R bs r bs' W HB H).
  - intros bs r bs' W HB H.
    assert (R : returns storage
                  (bind (readPlayersLoop (loopFuel bs) 0 [])
                     (fun a => ret (option_map PlayersResult a)))
                  (fun r => forall v, r = Some v ->
                     Forall (win1251Of storage) (texts v))).
    { eapply returns_map; [apply returns_readPlayersLoop; constructor|].
      intros [ps|] Hps v E; cbn in E; [|discriminate].
      injection E as <-. apply Hps. reflexivity. }
    exact (R bs r bs' W HB H).
Qed.

End Texts.

(** *** Reads that run past the end *)

Lemma faults_bind_l {A B} (m : Read A) (k : A -> Read B) input f :
  faults m input f -> faults (bind m k) input f.
Proof.
  intros Hm bs W HR. unfold bind. rewrite (Hm bs W HR). reflexivity.
Qed.

Lemma faults_bind_r {A B} (m : Read A) (k : A -> Read B) input a mid f :
  yields m input a mid -> faults (k a) mid f -> faults (bind m k) input f.
Proof.
  intros Hm Hk bs W HR. unfold bind.
  destruct (Hm bs W HR) as (bs1 & -> & W1 & R1 & _).
  apply (Hk bs1 W1 R1).
Qed.

Lemma faults_readBytes n input :
  (List.length input < Z.to_nat n)%nat -> faults (readBytes n) input TruncatedBuffer.
Proof.
  intros Hn bs W HR. unfold readBytes, remaining, wf in *.
  assert (Hlen : (List.length (buffer bs) - readOffset bs = List.length input)%nat)
    by (rewrite <- length_skipn, HR; reflexivity).
  replace (readOffset bs + Z.to_nat n <=? List.length (buffer bs))%nat with false
    by (symmetry; apply Nat.leb_gt; lia).
  reflexivity.
Qed.

(** A length prefix that exceeds the bytes left, here on the first rule
    name of an ['r'] reply, is a truncation. *)
Lemma long_prefix_faults count len raw :
  1 <= count -> (List.length raw < Z.to_nat len)%nat ->
  faults readRules (u16 count ++ len :: raw) TruncatedBuffer.
Proof.
  intros Hcount Hlen. unfold readRules.
  eapply faults_bind_r; [apply yields_readUInt16|].
  destruct (Z.to_nat count) as [|n] eqn:E; [lia|].
  cbn [readRulesLoop].
  eapply faults_bind_r; [apply yields_readUInt8|].
  apply faults_bind_l. unfold bsReadCP1251String. apply faults_bind_l.
  apply faults_readBytes. exact Hlen.
Qed.

(** A ['d'] reply with one record: the record is read, then the test of
    the loop reads a count again, past the end. *)
Lemma single_record_faults p fuel :
  (2 <= fuel)%nat ->
  faults (readPlayersDetailedLoop fuel 0 []) (wirePlayersDetailed [p]) TruncatedBuffer.
Proof.
  intros Hfuel. destruct fuel as [|[|fuel]]; try lia.
  unfold wirePlayersDetailed, wirePlayerBytes.
  cbn [List.length map List.concat]. rewrite app_nil_r.
  rewrite <- (app_nil_r (u32 (wPing p))).
  cbn [readPlayersDetailedLoop].
  eapply faults_bind_r; [apply yields_readUInt16|].
  change (0 <? Z.of_nat 1) with true. cbv iota.
  cbn [app].
  eapply faults_bind_r; [apply yields_readUInt8|].
  unfold field8. cbn [app].
  eapply faults_bind_r; [apply yields_readUInt8|].
  eapply faults_bind_r; [apply yields_string|].
  eapply faults_bind_r; [apply yields_readUInt32|].
  eapply faults_bind_r; [apply yields_readUInt32|].
  apply faults_bind_l. unfold readUInt16, readUInt. apply faults_bind_l.
  apply faults_readBytes. cbn. lia.
Qed.

End ReadFacts.

(** ** The exchange *)

Module ExchangeFacts.

Section Steps.
Variables (this : SampQueryOptions) (ip : string) (port : Z)
          (opcode : SampQueryOpcode).

Lemma run_app events more t :
  run this ip port opcode (events ++ more) t
  = run this ip port opcode more (run this ip port opcode events t).
Proof. unfold run. apply fold_left_app. Qed.

Lemma run_cons e events t :
  run this ip port opcode (e :: events) t
  = run this ip port opcode events (step this ip port opcode t e).
Proof. reflexivity. Qed.

(** A settled promise stays as it is settled. *)
Lemma settle_settled s x t : promise t = Some x -> promise (settle s t) = Some x.
Proof. intros H. unfold settle. rewrite H. exact H. Qed.

Lemma settle_pending s t : promise t = None -> promise (settle s t) = Some s.
Proof. intros H. unfold settle. rewrite H. reflexivity. Qed.

Lemma onMessage_settled message x t :
  promise t = Some x -> promise (onMessage this opcode message t) = Some x.
Proof.
  intros H. unfold onMessage.
  destruct (List.length message <? 11)%nat.
  - apply settle_settled. exact H.
  - destruct (BitStream.slice 11 (BitStream.from message)) as [f | bytes].
    + apply settle_settled. exact H.
    + destruct (decode opcode bytes) as [f | [[v|] bs]];
        try apply settle_settled; exact H.
Qed.

Lemma step_settled e x t :
  promise t = Some x -> promise (step this ip port opcode t e) = Some x.
Proof.
  intros H. destruct e as [[err|] | | message]; cbn [step].
  - destruct (sendPending t); [|exact H].
    cbn. apply settle_settled. exact H.
  - destruct (sendPending t); exact H.
  - destruct (timerArmed t); [|exact H].
    apply settle_settled. exact H.
  - destruct (socketOpen t && listening t); [|exact H].
    apply onMessage_settled. exact H.
Qed.

Lemma run_settled events : forall x t,
  promise t = Some x -> promise (run this ip port opcode events t) = Some x.
Proof.
  induction events as [|e events IH]; intros x t H; [exact H|].
  rewrite run_cons. apply IH. apply step_settled. exact H.
Qed.

(** Once quiet, a transaction does not change any more. *)
Lemma step_quiet e t : quiet t -> step this ip port opcode t e = t.
Proof.
  intros (HT & HS & HL). destruct e as [err | | message]; cbn [step].
  - rewrite HS. reflexivity.
  - rewrite HT. reflexivity.
  - destruct HL as [HL | HL]; rewrite HL; [reflexivity|].
    rewrite andb_false_r. reflexivity.
Qed.

Lemma run_quiet events : forall t,
  quiet t -> run this ip port opcode events t = t.
Proof.
  induction events as [|e events IH]; intros t H; [reflexivity|].
  rewrite run_cons, step_quiet by exact H. apply IH. exact H.
Qed.

(** The handler never installs itself again. *)
Lemma onMessage_listening message t :
  listening (onMessage this opcode message t) = listening t.
Proof.
  unfold onMessage.
  destruct (List.length message <? 11)%nat.
  - unfold settle. destruct (promise (clearTimeout t)); reflexivity.
  - destruct (BitStream.slice 11 (BitStream.from message)) as [f | bytes].
    + unfold settle. destruct (promise (close (clearTimeout t))); reflexivity.
    + destruct (decode opcode bytes) as [f | [[v|] bs]]; try reflexivity;
        unfold settle; destruct (promise (close (clearTimeout t))); reflexivity.
Qed.

Lemma step_untouched e t : untouched t -> untouched (step this ip port opcode t e).
Proof.
  intros H. destruct e as [[err|] | | message]; cbn [step].
  - destruct (sendPending t); [|exact H].
    intros [HO _]. exfalso. revert HO. cbn. discriminate.
  - destruct (sendPending t); exact H.
  - destruct (timerArmed t); [|exact H].
    intros [HO _]. exfalso. revert HO.
    unfold settle. destruct (promise _); cbn; discriminate.
  - destruct (socketOpen t && listening t); [|exact H].
    intros [_ HL]. exfalso. revert HL.
    rewrite onMessage_listening. cbn. discriminate.
Qed.

Lemma run_untouched events : forall t,
  untouched t -> untouched (run this ip port opcode events t).
Proof.
  induction events as [|e events IH]; intros t H; [exact H|].
  rewrite run_cons. apply IH. apply step_untouched. exact H.
Qed.

End Steps.

(** *** From the call to the first callback *)

Lemma start_spec ip port timeout opcode t t' :
  start ip port timeout opcode t = Some t' ->
  exists bs,
    requestStream ip port opcode = Some bs /\ 1 <= port <= 65535
    /\ t' = mkTransaction
              (log t ++ [CreateSocket; Send (sentBytes bs) port ip;
                         SetTimeout timeout; OnceMessage])
              (promise t) true true true true.
Proof.
  unfold start. intros H.
  destruct (requestStream ip port opcode) as [bs|]; [|discriminate].
  destruct ((1 <=? port) && (port <=? 65535)) eqn:Hport; [|discriminate].
  apply andb_true_iff in Hport. destruct Hport as [H1 H2].
  exists bs. split; [reflexivity|]. split; [lia|].
  injection H as <-. cbn. rewrite <- !app_assoc. reflexivity.
Qed.

Lemma closes_lookedUp this opts : closes (lookedUp this opts) = 0%nat.
Proof. unfold lookedUp. destruct (requestResolveHost this opts); reflexivity. Qed.

Lemma promise_lookedUp this opts : promise (lookedUp this opts) = None.
Proof. unfold lookedUp. destruct (requestResolveHost this opts); reflexivity. Qed.

(** What [request] is once the socket could be opened. *)
Lemma request_open this opts opcode dns events t :
  request this opts opcode dns events = Some t -> socketOpen t = true ->
  exists t0,
    start (targetIp this opts dns) (requestPort this opts)
      (requestTimeout this opts) opcode (lookedUp this opts) = Some t0
    /\ t = run this (targetIp this opts dns) (requestPort this opts) opcode events t0.
Proof.
  unfold request, targetIp, lookedUp. intros H HO.
  destruct (requestResolveHost this opts).
  - destruct (dns (requestIp this opts)) as [e | address].
    + injection H as <-. discriminate HO.
    + destruct (start address _ _ _ _) as [t0|]; [|discriminate].
      injection H as <-. exists t0. split; reflexivity.
  - destruct (start (requestIp this opts) _ _ _ _) as [t0|]; [|discriminate].
    injection H as <-. exists t0. split; reflexivity.
Qed.

(** Later events carry the transaction on from where it stands. *)
Lemma request_app this opts opcode dns before more t :
  request this opts opcode dns before = Some t -> socketOpen t = true ->
  request this opts opcode dns (before ++ more)
  = Some (run this (targetIp this opts dns) (requestPort this opts) opcode more t).
Proof.
  unfold request, targetIp. intros H HO.
  destruct (requestResolveHost this opts).
  - destruct (dns (requestIp this opts)) as [e | address].
    + injection H as <-. discriminate HO.
    + destruct (start address _ _ _ _) as [t0|]; [|discriminate].
      injection H as <-. rewrite run_app. reflexivity.
  - destruct (start (requestIp this opts) _ _ _ _) as [t0|]; [|discriminate].
    injection H as <-. rewrite run_app. reflexivity.
Qed.

Lemma request_untouched this opts opcode dns events t :
  request this opts opcode dns events = Some t -> untouched t.
Proof.
  intros H [HO HL].
  destruct (request_open _ _ _ _ _ _ H HO) as (t0 & Hstart & ->).
  apply run_untouched; [|split; assumption].
  destruct (start_spec _ _ _ _ _ _ Hstart) as (bs & _ & _ & ->).
  intros _. cbn [promise timerArmed]. repeat split.
  - apply promise_lookedUp.
  - unfold closes. cbn [log]. rewrite filter_app, length_app.
    fold (closes (lookedUp this opts)). rewrite closes_lookedUp. reflexivity.
Qed.

(** *** The handler *)

Lemma slice_from message :
  (11 <= List.length message)%nat ->
  BitStream.slice 11 (BitStream.from message) = inr (replyReader message).
Proof.
  intros H. unfold BitStream.slice, BitStream.from, replyReader.
  cbn [BitStream.buffer].
  replace (11 <=? List.length message)%nat with true
    by (symmetry; apply Nat.leb_le; exact H).
  reflexivity.
Qed.

Lemma wf_replyReader message : wf (replyReader message).
Proof. unfold wf, replyReader. cbn. lia. Qed.

Lemma closes_settle s t : closes (settle s t) = closes t.
Proof. unfold settle. destruct (promise t); reflexivity. Qed.

Lemma closes_call a t :
  closes (call a t)
  = (closes t + match a with Close => 1 | _ => 0 end)%nat.
Proof.
  unfold closes, call. cbn [log]. rewrite filter_app, length_app.
  destruct a; reflexivity.
Qed.

Lemma closes_close t : closes (close t) = S (closes t).
Proof.
  unfold close, closes, call. cbn [log]. rewrite filter_app, length_app. cbn. lia.
Qed.

(** A datagram below 11 bytes: the timer is cleared, the promise
    rejected, and the handler returns before [socket.close()]. *)
Lemma onMessage_short this opcode message t :
  (List.length message < 11)%nat -> promise t = None ->
  let t' := onMessage this opcode message t in
  promise t' = Some (Rejected (invalidMessage this))
  /\ closes t' = closes t /\ timerArmed t' = false
  /\ socketOpen t' = socketOpen t.
Proof.
  intros Hlen Hp. unfold onMessage.
  replace (List.length message <? 11)%nat with true
    by (symmetry; apply Nat.ltb_lt; exact Hlen).
  cbn zeta.
  assert (Hc : closes (clearTimeout t) = closes t).
  { unfold clearTimeout, closes, call. cbn [log].
    rewrite filter_app, length_app. cbn. lia. }
  assert (Hp' : promise (clearTimeout t) = None) by exact Hp.
  rewrite closes_settle. unfold settle. rewrite Hp'.
  repeat split; assumption.
Qed.

(** A datagram of 11 bytes or more: the socket is closed once, then the
    payload is decoded. *)
Lemma onMessage_long this opcode message t :
  (11 <= List.length message)%nat -> promise t = None ->
  let t' := onMessage this opcode message t in
  promise t' = match decode opcode (replyReader message) with
               | inl f => Some (Rejected (Thrown f))
               | inr (Some value, _) => Some (Resolved value)
               | inr (None, _) => None
               end
  /\ closes t' = S (closes t) /\ timerArmed t' = false /\ socketOpen t' = false.
Proof.
  intros Hlen Hp. unfold onMessage.
  replace (List.length message <? 11)%nat with false
    by (symmetry; apply Nat.ltb_ge; exact Hlen).
  rewrite (slice_from _ Hlen). cbn zeta.
  assert (Hc : closes (close (clearTimeout t)) = S (closes t)).
  { unfold close, clearTimeout, closes, call. cbn [log].
    rewrite !filter_app, !length_app. cbn. lia. }
  assert (Hp' : promise (close (clearTimeout t)) = None) by exact Hp.
  destruct (decode opcode (replyReader message)) as [f | [[v|] bs]];
    rewrite ?closes_settle; unfold settle; rewrite ?Hp';
    repeat split; solve [reflexivity | exact Hc | exact Hp'].
Qed.

(** Delivery of a datagram to a call that awaits one. *)
Lemma delivered this opts opcode dns before t message more :
  request this opts opcode dns before = Some t -> awaiting t ->
  request this opts opcode dns (before ++ Message message :: more)
  = Some (run this (targetIp this opts dns) (requestPort this opts) opcode more
            (onMessage this opcode message (handling t)))
  /\ promise (handling t) = None /\ closes (handling t) = 0%nat.
Proof.
  intros H HA. pose proof (request_untouched _ _ _ _ _ _ H HA) as (Hp & _ & Hc).
  destruct HA as [HO HL].
  rewrite (request_app _ _ _ _ _ _ _ H HO), run_cons.
  cbn [step].
  destruct (socketOpen t && listening t) eqn:E;
    [|rewrite HO, HL in E; discriminate E].
  split; [reflexivity | split; [exact Hp | exact Hc]].
Qed.

Lemma onMessage_sendPending this opcode message t :
  sendPending (onMessage this opcode message t) = sendPending t.
Proof.
  unfold onMessage.
  destruct (List.length message <? 11)%nat.
  - unfold settle. destruct (promise (clearTimeout t)); reflexivity.
  - destruct (BitStream.slice 11 (BitStream.from message)) as [f | bytes].
    + unfold settle. destruct (promise (close (clearTimeout t))); reflexivity.
    + destruct (decode opcode bytes) as [f | [[v|] bs]]; try reflexivity;
        unfold settle; destruct (promise (close (clearTimeout t))); reflexivity.
Qed.

(** The promise of a call once a datagram has been handled. *)
Lemma outcome_delivered this opts opcode dns before t message more s :
  request this opts opcode dns before = Some t -> awaiting t ->
  promise (onMessage this opcode message (handling t)) = Some s ->
  outcome (request this opts opcode dns (before ++ Message message :: more)) = Some s.
Proof.
  intros H HA Hs.
  destruct (delivered _ _ _ _ _ _ message more H HA) as (-> & _ & _).
  cbn [outcome]. apply run_settled. exact Hs.
Qed.

(** The reader the decoders get for a reply with an 11-byte header. *)
Lemma replyReader_app hdr payload :
  List.length hdr = 11%nat -> replyReader (hdr ++ payload) = BitStream.mk payload 0 0.
Proof.
  intros H. unfold replyReader.
  rewrite skipn_app, H, Nat.sub_diag, skipn_all2 by lia. reflexivity.
Qed.

Lemma decode_yields {A} (m : BitStream.Read A) payload a :
  yields m payload a [] -> evalRead m (BitStream.mk payload 0 0) = inr a.
Proof.
  intros Hy. unfold evalRead.
  destruct (Hy (BitStream.mk payload 0 0)) as (bs' & -> & _);
    [unfold wf; cbn; lia | reflexivity | reflexivity].
Qed.

End ExchangeFacts.

(** ** The request packet *)

Module PacketFacts.

Lemma digitsValue_noDot s : forall acc v, digitsValue acc s = Some v -> noDot s.
Proof.
  induction s as [|c rest IH]; intros acc v H; [exact I|].
  cbn [digitsValue] in H. destruct (isDigit c) eqn:Hc; [|discriminate].
  split; [|exact (IH _ _ H)].
  intros ->. discriminate Hc.
Qed.

Lemma isOctet_noDot part o : isOctet part o -> noDot part.
Proof. intros [H _]. exact (digitsValue_noDot _ _ _ H). Qed.

Lemma split_noDot part : noDot part -> split "." part = [part].
Proof.
  induction part as [|c rest IH]; intros H; [reflexivity|].
  destruct H as [Hc Hrest]. cbn [split].
  rewrite (proj2 (Ascii.eqb_neq c ".") Hc), (IH Hrest). reflexivity.
Qed.

Lemma split_app part rest :
  noDot part -> split "." (part ++ String "." rest) = part :: split "." rest.
Proof.
  induction part as [|c part IH]; intros H.
  - reflexivity.
  - destruct H as [Hc Hpart]. cbn [String.append split].
    rewrite (proj2 (Ascii.eqb_neq c ".") Hc), (IH Hpart). reflexivity.
Qed.

(** Splitting a dotted address gives its parts back. *)
Lemma split_dotted parts :
  parts <> [] -> Forall noDot parts -> split "." (dotted parts) = parts.
Proof.
  induction parts as [|part rest IH]; intros Hne H; [congruence|].
  inversion H as [|? ? Hpart Hrest]; subst.
  destruct rest as [|next rest].
  - apply split_noDot. exact Hpart.
  - change (dotted (part :: next :: rest))
      with (part ++ String "." (dotted (next :: rest)))%string.
    rewrite (split_app _ _ Hpart), IH; [reflexivity | discriminate | exact Hrest].
Qed.

Lemma writeUInt8_byte v bs :
  0 <= v < 256 ->
  BitStream.writeUInt8 v bs
  = Some (BitStream.mk (BitStream.buffer bs ++ [v]) (BitStream.readOffset bs)
            (S (BitStream.writeOffset bs))).
Proof.
  intros Hv. unfold BitStream.writeUInt8.
  replace ((0 <=? v) && (v <? 256)) with true; [reflexivity|].
  symmetry. apply andb_true_iff. split; [apply Z.leb_le | apply Z.ltb_lt]; lia.
Qed.

Lemma writeParts_octets parts octets :
  Forall2 isOctet parts octets -> forall bs,
  writeParts parts bs
  = Some (BitStream.mk (BitStream.buffer bs ++ octets) (BitStream.readOffset bs)
            (BitStream.writeOffset bs + List.length octets)).
Proof.
  induction 1 as [|part o parts octets [Hn Ho] _ IH]; intros bs.
  - cbn. rewrite app_nil_r, Nat.add_0_r. destruct bs; reflexivity.
  - cbn [writeParts]. rewrite Hn, (writeUInt8_byte _ _ Ho), IH.
    cbn [BitStream.buffer BitStream.readOffset BitStream.writeOffset List.length].
    rewrite <- app_assoc, Nat.add_succ_r. reflexivity.
Qed.

(** [x & 0xFF] is a byte, for any integer [x]. *)
Lemma land_byte x : 0 <= Z.land x 0xFF < 256.
Proof.
  change 0xFF with (Z.ones 8). rewrite Z.land_ones by lia.
  apply Z.mod_pos_bound. reflexivity.
Qed.

Lemma charCode_byte opcode : 0 <= charCode opcode < 256.
Proof. destruct opcode; cbn; lia. Qed.

(** The stream of a request for an address of any number of octets. *)
Lemma requestStream_octets parts octets port opcode :
  parts <> [] -> Forall2 isOctet parts octets ->
  requestStream (dotted parts) port opcode
  = Some (BitStream.mk (wireRequest octets port opcode) 0
            (4 + List.length octets + 3)).
Proof.
  intros Hne H. unfold requestStream.
  rewrite split_dotted; [|exact Hne|].
  - rewrite (writeParts_octets _ _ H).
    rewrite (writeUInt8_byte _ _ (land_byte port)).
    rewrite (writeUInt8_byte _ _ (land_byte (Z.shiftr port 8))).
    rewrite (writeUInt8_byte _ _ (charCode_byte opcode)).
    cbn [BitStream.buffer BitStream.readOffset BitStream.writeOffset
         BitStream.writeString BitStream.empty].
    unfold wireRequest. f_equal. f_equal.
    + cbn. rewrite <- !app_assoc. reflexivity.
    + cbn. lia.
  - clear Hne. induction H as [|part o parts octets Ho _ IH]; constructor.
    + exact (isOctet_noDot _ _ Ho).
    + exact IH.
Qed.

Lemma sentBytes_all l r w : sentBytes (BitStream.mk l r w) = l.
Proof.
  unfold sentBytes, BitStream.length, BitStream.getBuffer. cbn. apply firstn_all.
Qed.

(** The synchronous part of [request] for such an address: the socket is
    created, the packet handed to [send], the timer set, the handler
    installed; the promise is pending. *)
Lemma request_begins this opts opcode dns parts octets :
  parts <> [] -> addressResolved this opts dns (dotted parts) ->
  Forall2 isOctet parts octets ->
  1 <= requestPort this opts <= 65535 ->
  request this opts opcode dns []
  = Some (mkTransaction
            (log (lookedUp this opts)
             ++ [CreateSocket;
                 Send (wireRequest octets (requestPort this opts) opcode)
                   (requestPort this opts) (dotted parts);
                 SetTimeout (requestTimeout this opts); OnceMessage])
            None true true true true).
Proof.
  intros Hne Haddr Hoct Hport.
  assert (Hstart : forall t, promise t = None ->
    start (dotted parts) (requestPort this opts) (requestTimeout this opts) opcode t
    = Some (mkTransaction
              (log t ++ [CreateSocket;
                         Send (wireRequest octets (requestPort this opts) opcode)
                           (requestPort this opts) (dotted parts);
                         SetTimeout (requestTimeout this opts); OnceMessage])
              None true true true true)).
  { intros t Hp. unfold start.
    rewrite (requestStream_octets _ _ _ _ Hne Hoct), sentBytes_all.
    replace ((1 <=? requestPort this opts) && (requestPort this opts <=? 65535))
      with true
      by (symmetry; apply andb_true_iff; split; apply Z.leb_le; lia).
    cbn [call log promise]. rewrite Hp, <- !app_assoc. reflexivity. }
  unfold request, addressResolved, lookedUp in *.
  destruct (requestResolveHost this opts).
  - rewrite Haddr, Hstart by reflexivity. reflexivity.
  - rewrite Haddr, Hstart by reflexivity. reflexivity.
Qed.

End PacketFacts.

(** C5.  For an address of four octets and a port from 1 to 65535, the
    packet [request] hands to [socket.send] is 11 bytes: "SAMP", the four
    octets in order, the low byte of the port, its high byte, the character
    code of the opcode. *)
Theorem request_packet_layout this opts opcode dns p1 p2 p3 p4 o1 o2 o3 o4 :
  addressResolved this opts dns (dotted [p1; p2; p3; p4]) ->
  isOctet p1 o1 -> isOctet p2 o2 -> isOctet p3 o3 -> isOctet p4 o4 ->
  1 <= requestPort this opts <= 65535 ->
  let port := requestPort this opts in
  let packet := [83; 65; 77; 80; o1; o2; o3; o4;
                 Z.land port 0xFF; Z.land (Z.shiftr port 8) 0xFF; charCode opcode] in
  option_map log (request this opts opcode dns [])
  = Some (log (lookedUp this opts)
          ++ [CreateSocket; Send packet port (dotted [p1; p2; p3; p4]);
              SetTimeout (requestTimeout this opts); OnceMessage])
  /\ List.length packet = 11%nat
  /\ firstn 4 packet = str "SAMP".
Proof.
  intros Haddr H1 H2 H3 H4 Hport port packet.
  rewrite (PacketFacts.request_begins this opts opcode dns [p1; p2; p3; p4]
             [o1; o2; o3; o4]); try assumption.
  - repeat split.
  - discriminate.
  - repeat (apply Forall2_cons; [assumption|]). apply Forall2_nil.
Qed.

Lemma request_packet_layout_witness :
  option_map log
    (request noOptions (mkOptions (Some "185.169.134.60"%string) (Some 8904) None None)
       op_i noDns [])
  = Some ([] ++ [CreateSocket;
                 Send [83; 65; 77; 80; 185; 169; 134; 60; 200; 34; 105] 8904
                   "185.169.134.60";
                 SetTimeout 2000; OnceMessage])
  /\ 11%nat = 11%nat
  /\ [83; 65; 77; 80] = str "SAMP".
Proof.
  apply (request_packet_layout noOptions
           (mkOptions (Some "185.169.134.60"%string) (Some 8904) None None)
           op_i noDns "185" "169" "134" "60" 185 169 134 60).
  - reflexivity.
  - split; [reflexivity | lia].
  - split; [reflexivity | lia].
  - split; [reflexivity | lia].
  - split; [reflexivity | lia].
  - cbn. lia.
Defined.

(** C8.  The bytes of a request, read back as 4 raw bytes and seven
    uint8, are the tag "SAMP", the four octets, the two port bytes and the
    character code that were written; for a 16-bit port the two bytes make
    up the port, low byte first. *)
Theorem request_round_trip p1 p2 p3 p4 o1 o2 o3 o4 port opcode :
  isOctet p1 o1 -> isOctet p2 o2 -> isOctet p3 o3 -> isOctet p4 o4 ->
  option_map (fun bs => evalRead parseRequest (BitStream.from (sentBytes bs)))
    (requestStream (dotted [p1; p2; p3; p4]) port opcode)
  = Some (inr (str "SAMP", [o1; o2; o3; o4],
               Z.land port 0xFF, Z.land (Z.shiftr port 8) 0xFF, charCode opcode))
  /\ (0 <= port < 65536 ->
      Z.land port 0xFF + 256 * Z.land (Z.shiftr port 8) 0xFF = port).
Proof.
  intros H1 H2 H3 H4. split.
  - rewrite (PacketFacts.requestStream_octets [p1; p2; p3; p4] [o1; o2; o3; o4]);
      [|discriminate | repeat (apply Forall2_cons; [assumption|]); apply Forall2_nil].
    cbn [option_map]. rewrite PacketFacts.sentBytes_all. apply f_equal.
    unfold BitStream.from. apply ExchangeFacts.decode_yields. unfold parseRequest, wireRequest.
    eapply ReadFacts.yields_bind;
      [exact (ReadFacts.yields_readBytes [83; 65; 77; 80] _)|].
    cbn [app].
    do 7 (eapply ReadFacts.yields_bind; [apply ReadFacts.yields_readUInt8|]).
    apply ReadFacts.yields_ret.
  - intros Hport.
    change 0xFF with (Z.ones 8). rewrite !Z.land_ones, Z.shiftr_div_pow2 by lia.
    change (2 ^ 8) with 256.
    rewrite (Z.mod_small (port / 256) 256)
      by (split; [apply Z.div_pos; lia | apply Z.div_lt_upper_bound; lia]).
    pose proof (Z.div_mod port 256). lia.
Qed.

Lemma request_round_trip_witness :
  option_map (fun bs => evalRead parseRequest (BitStream.from (sentBytes bs)))
    (requestStream "127.0.0.1" 7777 op_d)
  = Some (inr ([83; 65; 77; 80], [127; 0; 0; 1], 97, 30, 100))
  /\ (0 <= 7777 < 65536 -> 97 + 256 * 30 = 7777).
Proof.
  apply (request_round_trip "127" "0" "0" "1" 127 0 0 1 7777 op_d);
    (split; [reflexivity | lia]).
Defined.

(** C4, as the code has it.  [request] does not validate the address: for
    any number of dot-separated decimal parts of value at most 255, four or
    not, and a port, after defaulting, from 1 to 65535, it creates the
    socket and sends a packet with one byte per part; the promise is
    pending and nothing has been rejected. *)
Theorem address_parts_not_counted this opts opcode dns parts octets :
  parts <> [] -> addressResolved this opts dns (dotted parts) ->
  Forall2 isOctet parts octets ->
  1 <= requestPort this opts <= 65535 ->
  option_map log (request this opts opcode dns [])
  = Some (log (lookedUp this opts)
          ++ [CreateSocket;
              Send (wireRequest octets (requestPort this opts) opcode)
                (requestPort this opts) (dotted parts);
              SetTimeout (requestTimeout this opts); OnceMessage])
  /\ outcome (request this opts opcode dns []) = None
  /\ List.length (wireRequest octets (requestPort this opts) opcode)
     = (List.length parts + 7)%nat.
Proof.
  intros Hne Haddr Hoct Hport.
  rewrite (PacketFacts.request_begins this opts opcode dns parts octets);
    try assumption.
  repeat split. unfold wireRequest. rewrite !length_app.
  rewrite (Forall2_length Hoct). cbn. lia.
Qed.

Lemma address_parts_not_counted_witness :
  option_map log
    (request noOptions (mkOptions (Some "1.2.3"%string) None None None) op_i noDns [])
  = Some ([] ++ [CreateSocket; Send [83; 65; 77; 80; 1; 2; 3; 97; 30; 105] 7777 "1.2.3";
                 SetTimeout 2000; OnceMessage])
  /\ outcome (request noOptions (mkOptions (Some "1.2.3"%string) None None None)
               op_i noDns []) = None
  /\ 10%nat = (3 + 7)%nat.
Proof.
  apply (address_parts_not_counted noOptions
           (mkOptions (Some "1.2.3"%string) None None None) op_i noDns
           ["1"; "2"; "3"]%string [1; 2; 3]).
  - discriminate.
  - reflexivity.
  - repeat (apply Forall2_cons; [split; [reflexivity | lia]|]). apply Forall2_nil.
  - cbn. lia.
Defined.

(** C4, as the spec has it, fails: with the address "1.2.3" nothing is
    rejected; the socket is created and a packet of 10 bytes is sent. *)
Lemma three_part_address_is_sent :
  option_map log
    (request noOptions (mkOptions (Some "1.2.3"%string) None None None) op_i noDns [])
  = Some [CreateSocket; Send [83; 65; 77; 80; 1; 2; 3; 97; 30; 105] 7777 "1.2.3";
          SetTimeout 2000; OnceMessage]
  /\ outcome (request noOptions (mkOptions (Some "1.2.3"%string) None None None)
               op_i noDns []) = None.
Proof. split; reflexivity. Qed.

(** C9.  An option that is falsy, and not only one that is absent, gives
    way to the default: the empty address to 127.0.0.1, the port 0 to 7777,
    the timeout 0 to 2000, whatever [this.options] holds; an absent option
    falls back on [this.options] first.  The values [request] goes on with,
    and passes to [socket.send] and [setTimeout], are never the empty
    string or 0. *)
Theorem falsy_options_defaulted this opts :
  (ip opts = Some ""%string -> requestIp this opts = "127.0.0.1"%string)
  /\ (port opts = Some 0 -> requestPort this opts = 7777)
  /\ (timeout opts = Some 0 -> requestTimeout this opts = 2000)
  /\ (ip opts = None -> ip this = None \/ ip this = Some ""%string ->
      requestIp this opts = "127.0.0.1"%string)
  /\ (port opts = None -> port this = None \/ port this = Some 0 ->
      requestPort this opts = 7777)
  /\ (timeout opts = None -> timeout this = None \/ timeout this = Some 0 ->
      requestTimeout this opts = 2000)
  /\ requestIp this opts <> ""%string
  /\ requestPort this opts <> 0
  /\ requestTimeout this opts <> 0
  /\ (forall opcode dns t,
        request this opts opcode dns [] = Some t -> socketOpen t = true ->
        exists packet,
          log t = log (lookedUp this opts)
                  ++ [CreateSocket;
                      Send packet (requestPort this opts) (targetIp this opts dns);
                      SetTimeout (requestTimeout this opts); OnceMessage]).
Proof.
  unfold requestIp, requestPort, requestTimeout, defaultPort, defaultTimeout.
  repeat split.
  - intros ->. reflexivity.
  - intros ->. reflexivity.
  - intros ->. reflexivity.
  - intros -> [-> | ->]; reflexivity.
  - intros -> [-> | ->]; reflexivity.
  - intros -> [-> | ->]; reflexivity.
  - unfold defaultIp. destruct (orDefault (ip opts) (ip this)) as [s|]; [|discriminate].
    destruct (String.eqb s "") eqn:E; [discriminate|].
    apply String.eqb_neq. exact E.
  - unfold defaultNumber. destruct (orDefault (port opts) (port this)) as [z|];
      [|discriminate].
    destruct (z =? 0) eqn:E; [discriminate | apply Z.eqb_neq; exact E].
  - unfold defaultNumber. destruct (orDefault (timeout opts) (timeout this)) as [z|];
      [|discriminate].
    destruct (z =? 0) eqn:E; [discriminate | apply Z.eqb_neq; exact E].
  - intros opcode dns t H HO.
    destruct (ExchangeFacts.request_open _ _ _ _ _ _ H HO) as (t0 & Hstart & ->).
    destruct (ExchangeFacts.start_spec _ _ _ _ _ _ Hstart) as (bs & _ & _ & ->).
    exists (sentBytes bs). reflexivity.
Qed.

Lemma falsy_options_defaulted_witness :
  requestPort (mkOptions None (Some 8904) None None)
    (mkOptions (Some ""%string) (Some 0) (Some 0) None) = 7777.
Proof.
  exact (proj1 (proj2 (falsy_options_defaulted (mkOptions None (Some 8904) None None)
                         (mkOptions (Some ""%string) (Some 0) (Some 0) None)))
           eq_refl).
Defined.

(** ** Replies *)

(** C6.  A reply datagram shorter than 11 bytes rejects the call with the
    "invalid message from socket" error, whatever the opcode and whatever
    was delivered before, as long as the datagram reaches the handler. *)
Theorem short_reply_rejected this opts opcode dns before t message more :
  request this opts opcode dns before = Some t -> awaiting t ->
  (List.length message < 11)%nat ->
  outcome (request this opts opcode dns (before ++ Message message :: more))
  = Some (Rejected (invalidMessage this)).
Proof.
  intros H HA Hlen.
  apply (ExchangeFacts.outcome_delivered _ _ _ _ _ _ _ _ _ H HA).
  destruct (ExchangeFacts.delivered _ _ _ _ _ _ message more H HA) as (_ & Hp & _).
  apply (ExchangeFacts.onMessage_short this opcode message _ Hlen Hp).
Qed.

Lemma short_reply_rejected_witness :
  outcome (request noOptions noOptions op_r noDns
             ([SendDone None] ++ Message [83; 65; 77; 80; 127; 0; 0; 1; 97; 30]
                :: [TimerFired]))
  = Some (Rejected (Error "[sampquery] [undefined:undefined] invalid message from socket")).
Proof.
  eapply (short_reply_rejected noOptions noOptions op_r noDns [SendDone None]).
  - reflexivity.
  - split; reflexivity.
  - cbn. lia.
Defined.

(** C7.  An ['i'] reply laid out as closed, players, maxPlayers and three
    text fields behind uint32 lengths resolves the call with exactly these
    six values, the texts read through the code page. *)
Theorem info_reply_decoded this opts dns before t hdr c p mp sn gm lang more :
  request this opts op_i dns before = Some t -> awaiting t ->
  List.length hdr = 11%nat ->
  outcome (request this opts op_i dns
             (before ++ Message (hdr ++ wireInfo c p mp sn gm lang) :: more))
  = Some (Resolved (InfoResult
            {| closed := negb (c =? 0); players := p; maxPlayers := mp;
               serverName := decodeWin1251String sn;
               gameModeName := decodeWin1251String gm;
               language := decodeWin1251String lang |})).
Proof.
  intros H HA Hhdr.
  apply (ExchangeFacts.outcome_delivered _ _ _ _ _ _ _ _ _ H HA).
  destruct (ExchangeFacts.delivered _ _ _ _ _ _ (hdr ++ wireInfo c p mp sn gm lang)
              more H HA) as (_ & Hp & _).
  destruct (ExchangeFacts.onMessage_long this op_i (hdr ++ wireInfo c p mp sn gm lang)
              (handling t)) as (-> & _); [rewrite length_app; lia | exact Hp |].
  rewrite (ExchangeFacts.replyReader_app _ _ Hhdr).
  pose proof (ReadFacts.yields_readInfo c p mp sn gm lang []) as Hy.
  rewrite app_nil_r in Hy.
  destruct (Hy (BitStream.mk (wireInfo c p mp sn gm lang) 0 0)) as (bs' & E & _);
    [unfold wf; cbn; lia | reflexivity |].
  cbn [decode]. unfold BitStream.bind, BitStream.ret. rewrite E. reflexivity.
Qed.

Lemma info_reply_decoded_witness :
  outcome (request noOptions noOptions op_i noDns
             ([SendDone None]
              ++ Message (header ++ wireInfo 0 12 32 (str "Test") (str "DM") (str "EN"))
              :: []))
  = Some (Resolved (InfoResult
            {| closed := false; players := 12; maxPlayers := 32;
               serverName := str "Test"; gameModeName := str "DM";
               language := str "EN" |})).
Proof.
  eapply (info_reply_decoded noOptions noOptions noDns [SendDone None] _ header
            0 12 32 (str "Test") (str "DM") (str "EN") []).
  - reflexivity.
  - split; reflexivity.
  - reflexivity.
Defined.

(** C3, as the code has it.  When the payload of a reply of 11 bytes or
    more cannot be decoded, the fault the codec raised is what the call is
    rejected with, unchanged; that fault is a [TruncatedBuffer], never an
    [InvalidSlice]. *)
Theorem decode_fault_passed_on this opts opcode dns before t message more f :
  request this opts opcode dns before = Some t -> awaiting t ->
  (11 <= List.length message)%nat ->
  evalRead (decode opcode) (replyReader message) = inl f ->
  outcome (request this opts opcode dns (before ++ Message message :: more))
  = Some (Rejected (Thrown f))
  /\ f = BitStream.TruncatedBuffer.
Proof.
  intros H HA Hlen Hf. unfold evalRead in Hf.
  destruct (decode opcode (replyReader message)) as [f' | [v bs]] eqn:E;
    [|discriminate].
  injection Hf as ->. split.
  - apply (ExchangeFacts.outcome_delivered _ _ _ _ _ _ _ _ _ H HA).
    destruct (ExchangeFacts.delivered _ _ _ _ _ _ message more H HA) as (_ & Hp & _).
    destruct (ExchangeFacts.onMessage_long this opcode message (handling t) Hlen Hp)
      as (-> & _).
    rewrite E. reflexivity.
  - apply (ReadFacts.onlyTruncated_decode opcode _ _ E).
Qed.

Lemma decode_fault_passed_on_witness :
  outcome (request noOptions noOptions op_r noDns
             ([SendDone None] ++ Message (header ++ [1; 0; 7; 109; 97; 112]) :: []))
  = Some (Rejected (Thrown BitStream.TruncatedBuffer))
  /\ BitStream.TruncatedBuffer = BitStream.TruncatedBuffer.
Proof.
  eapply (decode_fault_passed_on noOptions noOptions op_r noDns [SendDone None]).
  - reflexivity.
  - split; reflexivity.
  - cbn. lia.
  - reflexivity.
Defined.

(** C3, as the spec has it, fails: a reply that is its header and nothing
    more, asked with ['i'], rejects the call with the fault of the codec
    and not with the error of a malformed response. *)
Lemma truncated_reply_not_malformed_response :
  outcome (request noOptions noOptions op_i noDns [SendDone None; Message header])
  = Some (Rejected (Thrown BitStream.TruncatedBuffer))
  /\ outcome (request noOptions noOptions op_i noDns [SendDone None; Message header])
     <> Some (Rejected (invalidMessage noOptions)).
Proof.
  split; [reflexivity | discriminate].
Qed.

(** Whatever the options, every string of a resolved result, for each of
    the four opcodes, is the windows-1251 reading of a run of bytes of the
    payload: one code unit per byte, by the table of the code page. *)
Theorem texts_are_win1251 this opts opcode dns before t message more v :
  request this opts opcode dns before = Some t -> awaiting t ->
  outcome (request this opts opcode dns (before ++ Message message :: more))
  = Some (Resolved v) ->
  Forall (win1251Of (skipn 11 message)) (texts v).
Proof.
  intros H HA Hv.
  destruct (ExchangeFacts.delivered _ _ _ _ _ _ message more H HA) as (E & Hp & _).
  rewrite E in Hv. cbn [outcome] in Hv.
  destruct (Nat.lt_ge_cases (List.length message) 11) as [Hlen | Hlen].
  - destruct (ExchangeFacts.onMessage_short this opcode message _ Hlen Hp) as (Hs & _).
    rewrite (ExchangeFacts.run_settled _ _ _ _ more _ _ Hs) in Hv. discriminate Hv.
  - destruct (ExchangeFacts.onMessage_long this opcode message (handling t) Hlen Hp)
      as (Hs & _).
    destruct (decode opcode (replyReader message)) as [f | [[v'|] bs]] eqn:Ed.
    + rewrite (ExchangeFacts.run_settled _ _ _ _ more _ _ Hs) in Hv. discriminate Hv.
    + rewrite (ExchangeFacts.run_settled _ _ _ _ more _ _ Hs) in Hv.
      injection Hv as <-.
      apply (ReadFacts.returns_decode (skipn 11 message) opcode (replyReader message)
               (Some v') bs (ExchangeFacts.wf_replyReader message) eq_refl Ed v' eq_refl).
    + exfalso. apply (ReadFacts.decode_total opcode _ bs
                        (ExchangeFacts.wf_replyReader message) Ed).
Qed.

Lemma texts_are_win1251_witness :
  Forall (win1251Of [1; 0; 3; 0xEC; 0xE0; 0xEF; 2; 0xCB; 0xD1])
    [[0x043C; 0x0430; 0x043F]; [0x041B; 0x0421]].
Proof.
  apply (texts_are_win1251 noOptions noOptions op_r noDns [SendDone None]
           (mkTransaction
              [CreateSocket; Send [83; 65; 77; 80; 127; 0; 0; 1; 97; 30; 114] 7777 "127.0.0.1";
               SetTimeout 2000; OnceMessage] None true true true false)
           (header ++ wireRules [([0xEC; 0xE0; 0xEF], [0xCB; 0xD1])]) []
           (RulesResult [mkRule [0x043C; 0x0430; 0x043F] [0x041B; 0x0421]])).
  - reflexivity.
  - split; reflexivity.
  - reflexivity.
Defined.

(** The sibling of the ['d'] decoder, ['r'], which reads its count once,
    returns every pair of a reply in wire order. *)
Lemma rules_reply_decoded this opts dns before t hdr rs more :
  request this opts op_r dns before = Some t -> awaiting t ->
  List.length hdr = 11%nat ->
  outcome (request this opts op_r dns (before ++ Message (hdr ++ wireRules rs) :: more))
  = Some (Resolved (RulesResult (map decodedRule rs))).
Proof.
  intros H HA Hhdr.
  apply (ExchangeFacts.outcome_delivered _ _ _ _ _ _ _ _ _ H HA).
  destruct (ExchangeFacts.delivered _ _ _ _ _ _ (hdr ++ wireRules rs) more H HA)
    as (_ & Hp & _).
  destruct (ExchangeFacts.onMessage_long this op_r (hdr ++ wireRules rs) (handling t))
    as (-> & _); [rewrite length_app; lia | exact Hp |].
  rewrite (ExchangeFacts.replyReader_app _ _ Hhdr).
  pose proof (ReadFacts.yields_readRules rs []) as Hy. rewrite app_nil_r in Hy.
  destruct (Hy (BitStream.mk (wireRules rs) 0 0)) as (bs' & E & _);
    [unfold wf; cbn; lia | reflexivity |].
  cbn [decode]. unfold BitStream.bind, BitStream.ret. rewrite E. reflexivity.
Qed.

(** C1, on the code.  The ['d'] decoder calls [readUInt16] in the test of
    its loop, so the count is read again after every record.  A reply that
    carries one player is its count and one record: the second read of the
    count runs past the end and the call is rejected instead of resolving
    with the player. *)
Theorem single_player_reply_rejected this opts dns before t hdr p more :
  request this opts op_d dns before = Some t -> awaiting t ->
  List.length hdr = 11%nat ->
  outcome (request this opts op_d dns
             (before ++ Message (hdr ++ wirePlayersDetailed [p]) :: more))
  = Some (Rejected (Thrown BitStream.TruncatedBuffer)).
Proof.
  intros H HA Hhdr.
  apply (ExchangeFacts.outcome_delivered _ _ _ _ _ _ _ _ _ H HA).
  destruct (ExchangeFacts.delivered _ _ _ _ _ _ (hdr ++ wirePlayersDetailed [p])
              more H HA) as (_ & Hp & _).
  destruct (ExchangeFacts.onMessage_long this op_d (hdr ++ wirePlayersDetailed [p])
              (handling t)) as (-> & _); [rewrite length_app; lia | exact Hp |].
  rewrite (ExchangeFacts.replyReader_app _ _ Hhdr).
  cbn [decode]. unfold BitStream.bind at 1.
  rewrite (ReadFacts.single_record_faults p
             (loopFuel (BitStream.mk (wirePlayersDetailed [p]) 0 0))).
  - reflexivity.
  - unfold loopFuel, BitStream.remaining. cbn. lia.
  - unfold wf. cbn. lia.
  - reflexivity.
Qed.

Lemma single_player_reply_rejected_witness :
  outcome (request noOptions noOptions op_d noDns
             ([SendDone None] ++ Message (header ++ wirePlayersDetailed [playerA]) :: []))
  = Some (Rejected (Thrown BitStream.TruncatedBuffer)).
Proof.
  eapply (single_player_reply_rejected noOptions noOptions noDns [SendDone None]).
  - reflexivity.
  - split; reflexivity.
  - reflexivity.
Defined.

(** The same defect without a read past the end: of two players, the
    second with an empty name, only the first is returned, the bytes of the
    second being taken for a count of 1. *)
Lemma second_player_lost :
  outcome (request noOptions noOptions op_d noDns
             [SendDone None;
              Message (header ++ wirePlayersDetailed [playerA; playerNameless])])
  = Some (Resolved (PlayersDetailedResult [decodedPlayer playerA])).
Proof. reflexivity. Qed.

(** A ['d'] reply with a count of 0 is an empty sequence. *)
Lemma no_player_reply_decoded :
  outcome (request noOptions noOptions op_d noDns
             [SendDone None; Message (header ++ wirePlayersDetailed [])])
  = Some (Resolved (PlayersDetailedResult [])).
Proof. reflexivity. Qed.

(** The loop of ['c'] has the same test: a reply with one player is
    rejected as well. *)
Lemma single_stat_reply_rejected :
  outcome (request noOptions noOptions op_c noDns
             [SendDone None; Message (header ++ wirePlayers [([65], 1)])])
  = Some (Rejected (Thrown BitStream.TruncatedBuffer)).
Proof. reflexivity. Qed.

(** The ['r'] reply of section 8: two pairs, returned in their order. *)
Lemma rules_reply_example :
  outcome (request noOptions noOptions op_r noDns
             ([SendDone None]
              ++ Message (header ++ wireRules [(str "mapname", str "Los Santos");
                                               (str "weather", str "10")]) :: []))
  = Some (Resolved (RulesResult [mkRule (str "mapname") (str "Los Santos");
                                 mkRule (str "weather") (str "10")])).
Proof.
  eapply (rules_reply_decoded noOptions noOptions noDns [SendDone None]);
    [reflexivity | split; reflexivity | reflexivity].
Qed.

(** The code page on its three ranges. *)
Lemma win1251Char_ascii b : 0 <= b < 0x80 -> win1251Char b = b.
Proof.
  intros Hb. unfold win1251Char.
  replace (b <? 0x80) with true by (symmetry; apply Z.ltb_lt; lia). reflexivity.
Qed.

Lemma win1251Char_cyrillic b : 0xC0 <= b <= 0xFF -> win1251Char b = 0x0410 + (b - 0xC0).
Proof.
  intros Hb. unfold win1251Char.
  replace (b <? 0x80) with false by (symmetry; apply Z.ltb_ge; lia).
  replace (b <? 0xC0) with false by (symmetry; apply Z.ltb_ge; lia).
  reflexivity.
Qed.

Lemma decodeWin1251String_length raw :
  List.length (decodeWin1251String raw) = List.length raw.
Proof. apply length_map. Qed.

(** ** The socket *)

(** C2, on the code.  On a datagram below 11 bytes the handler rejects and
    returns before [socket.close()]: the timer is cleared, the handler is
    gone, and nothing closes the socket afterwards, whatever follows. *)
Theorem short_reply_never_closes this opts opcode dns before t message more :
  request this opts opcode dns before = Some t -> awaiting t ->
  sendPending t = false ->
  (List.length message < 11)%nat ->
  option_map closes (request this opts opcode dns (before ++ Message message :: more))
  = Some 0%nat
  /\ option_map socketOpen
       (request this opts opcode dns (before ++ Message message :: more))
     = Some true.
Proof.
  intros H HA HS Hlen.
  destruct (ExchangeFacts.delivered _ _ _ _ _ _ message more H HA) as (-> & Hp & Hc).
  destruct (ExchangeFacts.onMessage_short this opcode message _ Hlen Hp)
    as (_ & Hc' & HT & HO).
  rewrite ExchangeFacts.run_quiet.
  - cbn [option_map]. rewrite Hc', Hc, HO. destruct HA as [HO' _].
    split; [reflexivity | exact (f_equal Some HO')].
  - repeat split.
    + exact HT.
    + rewrite ExchangeFacts.onMessage_sendPending. exact HS.
    + right. rewrite ExchangeFacts.onMessage_listening. reflexivity.
Qed.

Lemma short_reply_never_closes_witness :
  option_map closes
    (request noOptions noOptions op_i noDns
       ([SendDone None] ++ Message [83; 65; 77; 80; 127; 0; 0; 1; 97; 30]
          :: [TimerFired; Message header]))
  = Some 0%nat
  /\ option_map socketOpen
       (request noOptions noOptions op_i noDns
          ([SendDone None] ++ Message [83; 65; 77; 80; 127; 0; 0; 1; 97; 30]
             :: [TimerFired; Message header]))
     = Some true.
Proof.
  eapply (short_reply_never_closes noOptions noOptions op_i noDns [SendDone None]).
  - reflexivity.
  - split; reflexivity.
  - reflexivity.
  - cbn. lia.
Defined.

(** X17.  On a call still awaiting its reply whose send callback has
    already run, a datagram of 11 bytes or more closes the socket once,
    decoded or not, whatever follows it. *)
Lemma long_reply_closes_once this opts opcode dns before t message more :
  request this opts opcode dns before = Some t -> awaiting t ->
  sendPending t = false ->
  (11 <= List.length message)%nat ->
  option_map closes (request this opts opcode dns (before ++ Message message :: more))
  = Some 1%nat.
Proof.
  intros H HA HS Hlen.
  destruct (ExchangeFacts.delivered _ _ _ _ _ _ message more H HA) as (-> & Hp & Hc).
  destruct (ExchangeFacts.onMessage_long this opcode message (handling t) Hlen Hp)
    as (_ & Hc' & HT & HO).
  rewrite ExchangeFacts.run_quiet.
  - cbn [option_map]. rewrite Hc', Hc. reflexivity.
  - repeat split.
    + exact HT.
    + rewrite ExchangeFacts.onMessage_sendPending. exact HS.
    + left. exact HO.
Qed.

(** X16.  The timer that fires on a call still awaiting its reply, whose
    send callback has already run, closes the socket once and rejects with
    "host unavailable", naming the address and port the packet went to;
    later events change neither. *)
Lemma timeout_closes_once this opts opcode dns before t more :
  request this opts opcode dns before = Some t -> awaiting t ->
  sendPending t = false ->
  option_map closes (request this opts opcode dns (before ++ TimerFired :: more))
  = Some 1%nat
  /\ outcome (request this opts opcode dns (before ++ TimerFired :: more))
     = Some (Rejected (hostUnavailable (targetIp this opts dns) (requestPort this opts))).
Proof.
  intros H HA HS.
  destruct (ExchangeFacts.request_untouched _ _ _ _ _ _ H HA) as (Hp & HT & Hc).
  destruct HA as [HO HL].
  rewrite (ExchangeFacts.request_app _ _ _ _ _ _ _ H HO), ExchangeFacts.run_cons.
  cbn [step]. rewrite HT.
  rewrite ExchangeFacts.run_quiet.
  - cbn [option_map outcome].
    rewrite ExchangeFacts.closes_settle, ExchangeFacts.closes_close.
    unfold settle. cbn [close call promise]. rewrite Hp. split; [|reflexivity].
    f_equal. f_equal. exact Hc.
  - unfold settle. cbn [close call promise]. rewrite Hp. repeat split.
    + exact HS.
    + left. reflexivity.
Qed.

(** The second defect of the socket: a failed send closes the socket and
    leaves the timer armed, whose callback closes it again. *)
Lemma send_failure_closes_twice :
  option_map closes
    (request noOptions noOptions op_i noDns [SendDone (Some "EMSGSIZE"%string); TimerFired])
  = Some 2%nat.
Proof. reflexivity. Qed.


(** * Beyond the claims *)

(** ** From any state of the exchange *)

Module CallFacts.

Lemma settle_flags s t :
  log (settle s t) = log t /\ socketOpen (settle s t) = socketOpen t
  /\ timerArmed (settle s t) = timerArmed t /\ listening (settle s t) = listening t
  /\ sendPending (settle s t) = sendPending t.
Proof. unfold settle. destruct (promise t); repeat split. Qed.

Lemma closes_clearTimeout t : closes (clearTimeout t) = closes t.
Proof.
  unfold clearTimeout, closes, call. cbn [log].
  rewrite filter_app, length_app. cbn. lia.
Qed.

Lemma onMessage_closes this opcode message t :
  closes (onMessage this opcode message t)
  = if (List.length message <? 11)%nat then closes t else S (closes t).
Proof.
  unfold onMessage. destruct (List.length message <? 11)%nat.
  - rewrite ExchangeFacts.closes_settle. apply closes_clearTimeout.
  - assert (H : closes (close (clearTimeout t)) = S (closes t))
      by (rewrite ExchangeFacts.closes_close, closes_clearTimeout; reflexivity).
    destruct (BitStream.slice 11 (BitStream.from message)) as [f | bytes];
      [rewrite ExchangeFacts.closes_settle; exact H|].
    destruct (decode opcode bytes) as [f | [[v|] bs]];
      rewrite ?ExchangeFacts.closes_settle; exact H.
Qed.

Lemma onMessage_timerArmed this opcode message t :
  timerArmed (onMessage this opcode message t) = false.
Proof.
  unfold onMessage. destruct (List.length message <? 11)%nat.
  - rewrite (proj1 (proj2 (proj2 (settle_flags _ _)))). reflexivity.
  - destruct (BitStream.slice 11 (BitStream.from message)) as [f | bytes];
      [rewrite (proj1 (proj2 (proj2 (settle_flags _ _)))); reflexivity|].
    destruct (decode opcode bytes) as [f | [[v|] bs]];
      rewrite ?(proj1 (proj2 (proj2 (settle_flags _ _)))); reflexivity.
Qed.

Lemma onMessage_socketOpen this opcode message t :
  socketOpen (onMessage this opcode message t)
  = if (List.length message <? 11)%nat then socketOpen t else false.
Proof.
  unfold onMessage. destruct (List.length message <? 11)%nat.
  - rewrite (proj1 (proj2 (settle_flags _ _))). reflexivity.
  - destruct (BitStream.slice 11 (BitStream.from message)) as [f | bytes];
      [rewrite (proj1 (proj2 (settle_flags _ _))); reflexivity|].
    destruct (decode opcode bytes) as [f | [[v|] bs]];
      rewrite ?(proj1 (proj2 (settle_flags _ _))); reflexivity.
Qed.

(** The log of the handler: the timer cleared, and the socket closed when
    the datagram is long enough. *)
Lemma onMessage_log this opcode message t :
  log (onMessage this opcode message t)
  = log t ++ if (List.length message <? 11)%nat
             then [ClearTimeout] else [ClearTimeout; Close].
Proof.
  unfold onMessage. destruct (List.length message <? 11)%nat.
  - rewrite (proj1 (settle_flags _ _)). reflexivity.
  - assert (H : log (close (clearTimeout t)) = log t ++ [ClearTimeout; Close])
      by (cbn; rewrite <- app_assoc; reflexivity).
    destruct (BitStream.slice 11 (BitStream.from message)) as [f | bytes];
      [rewrite (proj1 (settle_flags _ _)); exact H|].
    destruct (decode opcode bytes) as [f | [[v|] bs]];
      rewrite ?(proj1 (settle_flags _ _)); exact H.
Qed.

(** What the promise of the handler is, on a pending promise. *)
Lemma onMessage_promise this opcode message t :
  promise t = None ->
  promise (onMessage this opcode message t)
  = if (List.length message <? 11)%nat
    then Some (Rejected (invalidMessage this))
    else match decode opcode (replyReader message) with
         | inl f => Some (Rejected (Thrown f))
         | inr (Some value, _) => Some (Resolved value)
         | inr (None, _) => None
         end.
Proof.
  intros Hp. destruct (List.length message <? 11)%nat eqn:E.
  - apply Nat.ltb_lt in E.
    apply (ExchangeFacts.onMessage_short this opcode message t E Hp).
  - apply Nat.ltb_ge in E.
    apply (ExchangeFacts.onMessage_long this opcode message t E Hp).
Qed.

(** A call either stopped at the name resolution, the same for every
    sequence of events, or runs its events from a fresh transaction. *)
Lemma request_cases this opts opcode dns events t :
  request this opts opcode dns events = Some t ->
  (exists e,
      requestResolveHost this opts = true
      /\ t = settle (Rejected (External e))
                (call (DnsResolve (requestIp this opts)) idle)
      /\ forall events', request this opts opcode dns events' = Some t)
  \/ (exists t0,
        fresh t0
        /\ log t0 = log (lookedUp this opts)
                    ++ [CreateSocket;
                        Send (match requestStream (targetIp this opts dns)
                                      (requestPort this opts) opcode with
                              | Some bs => sentBytes bs
                              | None => []
                              end)
                          (requestPort this opts) (targetIp this opts dns);
                        SetTimeout (requestTimeout this opts); OnceMessage]
        /\ forall events',
            request this opts opcode dns events'
            = Some (run this (targetIp this opts dns) (requestPort this opts)
                      opcode events' t0)).
Proof.
  intros H.
  assert (Hfresh : forall t0,
    start (targetIp this opts dns) (requestPort this opts) (requestTimeout this opts)
      opcode (lookedUp this opts) = Some t0 ->
    fresh t0
    /\ log t0 = log (lookedUp this opts)
                ++ [CreateSocket;
                    Send (match requestStream (targetIp this opts dns)
                                  (requestPort this opts) opcode with
                          | Some bs => sentBytes bs
                          | None => []
                          end)
                      (requestPort this opts) (targetIp this opts dns);
                    SetTimeout (requestTimeout this opts); OnceMessage]).
  { intros t0 Hs.
    destruct (ExchangeFacts.start_spec _ _ _ _ _ _ Hs) as (bs & Hbs & _ & ->).
    rewrite Hbs. split; [|reflexivity].
    unfold fresh. cbn [promise socketOpen timerArmed listening sendPending].
    rewrite ExchangeFacts.promise_lookedUp. repeat split.
    unfold closes. cbn [log]. rewrite filter_app, length_app.
    fold (closes (lookedUp this opts)). rewrite ExchangeFacts.closes_lookedUp.
    reflexivity. }
  revert H Hfresh. unfold request, targetIp, lookedUp.
  destruct (requestResolveHost this opts).
  - destruct (dns (requestIp this opts)) as [e | address].
    + intros H _. injection H as <-. left. exists e. repeat split.
    + destruct (start address _ _ _ _) as [t0|]; [|discriminate].
      intros _ Hfresh. right. exists t0.
      destruct (Hfresh t0 eq_refl) as [Hf Hl].
      split; [exact Hf | split; [exact Hl | reflexivity]].
  - destruct (start (requestIp this opts) _ _ _ _) as [t0|]; [|discriminate].
    intros _ Hfresh. right. exists t0.
    destruct (Hfresh t0 eq_refl) as [Hf Hl].
    split; [exact Hf | split; [exact Hl | reflexivity]].
Qed.

End CallFacts.

Module RunFacts.

Section Run.
Variables (this : SampQueryOptions) (ip : string) (port : Z)
          (opcode : SampQueryOpcode).

(** The callback that settles a pending promise with a value is the
    handler, on a datagram it could decode. *)
Lemma step_resolved t e v :
  promise t = None ->
  promise (step this ip port opcode t e) = Some (Resolved v) ->
  exists message bs,
    e = Message message /\ (11 <= List.length message)%nat
    /\ decode opcode (replyReader message) = inr (Some v, bs).
Proof.
  intros Hp H. destruct e as [[err|] | | message]; cbn [step] in H.
  - destruct (sendPending t); [|congruence].
    cbn in H. unfold settle in H. cbn in H. rewrite Hp in H. discriminate H.
  - destruct (sendPending t); cbn in H; congruence.
  - destruct (timerArmed t); [|congruence].
    unfold settle in H. cbn in H. rewrite Hp in H. discriminate H.
  - destruct (socketOpen t && listening t); [|congruence].
    pose proof (CallFacts.onMessage_promise this opcode message (handling t) Hp) as Hm.
    unfold handling in Hm. rewrite Hm in H. clear Hm.
    destruct (List.length message <? 11)%nat eqn:E; [discriminate H|].
    apply Nat.ltb_ge in E.
    destruct (decode opcode (replyReader message)) as [f | [[v'|] bs]] eqn:Ed;
      try discriminate H.
    injection H as ->. exists message, bs. repeat split; assumption.
Qed.

Lemma run_resolved events : forall t v,
  promise t = None ->
  promise (run this ip port opcode events t) = Some (Resolved v) ->
  decodedFrom opcode events v.
Proof.
  induction events as [|e events IH]; intros t v Hp H.
  - cbn in H. congruence.
  - rewrite ExchangeFacts.run_cons in H.
    destruct (promise (step this ip port opcode t e)) as [s|] eqn:Es.
    + rewrite (ExchangeFacts.run_settled _ _ _ _ events _ _ Es) in H.
      injection H as ->.
      destruct (step_resolved _ _ _ Hp Es) as (message & bs & -> & Hlen & Hd).
      exists message, bs. repeat split; [left; reflexivity | exact Hlen | exact Hd].
    + destruct (IH _ _ Es H) as (message & bs & Hin & Hlen & Hd).
      exists message, bs. repeat split; [right; exact Hin | exact Hlen | exact Hd].
Qed.

(** The reasons a callback rejects a pending promise with. *)
Lemma step_rejected t e r :
  promise t = None ->
  promise (step this ip port opcode t e) = Some (Rejected r) ->
  (exists err, e = SendDone (Some err) /\ r = External err)
  \/ (e = TimerFired /\ r = hostUnavailable ip port)
  \/ (exists message, e = Message message /\ (List.length message < 11)%nat
                      /\ r = invalidMessage this)
  \/ (exists message, e = Message message /\ (11 <= List.length message)%nat
                      /\ r = Thrown BitStream.TruncatedBuffer).
Proof.
  intros Hp H. destruct e as [[err|] | | message]; cbn [step] in H.
  - destruct (sendPending t); [|congruence].
    cbn in H. unfold settle in H. cbn in H. rewrite Hp in H.
    injection H as <-. left. exists err. split; reflexivity.
  - destruct (sendPending t); cbn in H; congruence.
  - destruct (timerArmed t); [|congruence].
    unfold settle in H. cbn in H. rewrite Hp in H.
    injection H as <-. right. left. split; reflexivity.
  - destruct (socketOpen t && listening t); [|congruence].
    pose proof (CallFacts.onMessage_promise this opcode message (handling t) Hp) as Hm.
    unfold handling in Hm. rewrite Hm in H. clear Hm.
    destruct (List.length message <? 11)%nat eqn:E.
    + apply Nat.ltb_lt in E. injection H as <-.
      right. right. left. exists message. repeat split. exact E.
    + apply Nat.ltb_ge in E.
      destruct (decode opcode (replyReader message)) as [f | [[v'|] bs]] eqn:Ed;
        try discriminate H.
      injection H as <-. right. right. right. exists message. repeat split; [exact E|].
      f_equal. apply (ReadFacts.onlyTruncated_decode opcode _ _ Ed).
Qed.

Lemma run_rejected events : forall t r,
  promise t = None ->
  promise (run this ip port opcode events t) = Some (Rejected r) ->
  exists e, In e events
    /\ ((exists err, e = SendDone (Some err) /\ r = External err)
        \/ (e = TimerFired /\ r = hostUnavailable ip port)
        \/ (exists message, e = Message message /\ (List.length message < 11)%nat
                            /\ r = invalidMessage this)
        \/ (exists message, e = Message message /\ (11 <= List.length message)%nat
                            /\ r = Thrown BitStream.TruncatedBuffer)).
Proof.
  induction events as [|e events IH]; intros t r Hp H.
  - cbn in H. congruence.
  - rewrite ExchangeFacts.run_cons in H.
    destruct (promise (step this ip port opcode t e)) as [s|] eqn:Es.
    + rewrite (ExchangeFacts.run_settled _ _ _ _ events _ _ Es) in H.
      injection H as ->. exists e. split; [left; reflexivity|].
      apply (step_rejected _ _ _ Hp Es).
    + destruct (IH _ _ Es H) as (e' & Hin & Hr).
      exists e'. split; [right; exact Hin | exact Hr].
Qed.

(** No callback adds to the closes made and still in sight. *)
Lemma step_closesInSight t e :
  (closesInSight (step this ip port opcode t e) <= closesInSight t)%nat.
Proof.
  destruct e as [[err|] | | message]; cbn [step].
  - destruct (sendPending t) eqn:HS; [|lia].
    unfold closesInSight. rewrite ExchangeFacts.closes_close, ExchangeFacts.closes_settle.
    destruct (CallFacts.settle_flags (Rejected (External err))
                (mkTransaction (log t) (promise t) (socketOpen t) (timerArmed t)
                   (listening t) false)) as (_ & _ & HT & HL & HP).
    cbn [close call sendPending timerArmed socketOpen listening].
    rewrite HT, HP, HS. cbn [timerArmed sendPending andb].
    rewrite orb_false_r.
    replace (closes (mkTransaction (log t) (promise t) (socketOpen t) (timerArmed t)
                       (listening t) false)) with (closes t) by reflexivity.
    destruct (timerArmed t); cbn; lia.
  - destruct (sendPending t) eqn:HS; [|lia].
    unfold closesInSight. cbn [sendPending timerArmed socketOpen listening].
    rewrite HS.
    replace (closes (mkTransaction (log t) (promise t) (socketOpen t) (timerArmed t)
                       (listening t) false)) with (closes t) by reflexivity.
    lia.
  - destruct (timerArmed t) eqn:HT; [|lia].
    unfold closesInSight. rewrite ExchangeFacts.closes_settle, ExchangeFacts.closes_close.
    destruct (CallFacts.settle_flags (Rejected (hostUnavailable ip port))
                (close (mkTransaction (log t) (promise t) (socketOpen t) false
                          (listening t) (sendPending t)))) as (_ & HO & HT' & HL & HP).
    rewrite HO, HT', HP. cbn [close call sendPending timerArmed socketOpen orb andb].
    rewrite HT.
    replace (closes (mkTransaction (log t) (promise t) (socketOpen t) false
                       (listening t) (sendPending t))) with (closes t) by reflexivity.
    cbn. lia.
  - destruct (socketOpen t && listening t) eqn:HA; [|lia].
    unfold closesInSight.
    rewrite CallFacts.onMessage_closes, CallFacts.onMessage_timerArmed,
      ExchangeFacts.onMessage_listening, ExchangeFacts.onMessage_sendPending.
    cbn [handling listening sendPending]. rewrite HA, andb_false_r, orb_true_r.
    replace (closes (handling t)) with (closes t) by reflexivity.
    destruct (List.length message <? 11)%nat; destruct (sendPending t);
      unfold closes; cbn; lia.
Qed.

Lemma run_closesInSight events : forall t,
  (closesInSight (run this ip port opcode events t) <= closesInSight t)%nat.
Proof.
  induction events as [|e events IH]; intros t; [cbn; lia|].
  rewrite ExchangeFacts.run_cons.
  pose proof (IH (step this ip port opcode t e)).
  pose proof (step_closesInSight t e). lia.
Qed.

(** Nor, when the send callback reports no error, to those of the timer
    and the handler. *)
Lemma step_closesInSightOfReply t e :
  (forall err, e <> SendDone (Some err)) ->
  (closesInSightOfReply (step this ip port opcode t e) <= closesInSightOfReply t)%nat.
Proof.
  intros Hne. destruct e as [[err|] | | message]; cbn [step].
  - exfalso. apply (Hne err). reflexivity.
  - destruct (sendPending t); unfold closesInSightOfReply, closes; cbn; lia.
  - destruct (timerArmed t) eqn:HT; [|lia].
    unfold closesInSightOfReply.
    rewrite ExchangeFacts.closes_settle, ExchangeFacts.closes_close.
    destruct (CallFacts.settle_flags (Rejected (hostUnavailable ip port))
                (close (mkTransaction (log t) (promise t) (socketOpen t) false
                          (listening t) (sendPending t)))) as (_ & HO & HT' & HL & HP).
    rewrite HO, HT'. cbn [close call timerArmed socketOpen orb andb].
    rewrite HT.
    replace (closes (mkTransaction (log t) (promise t) (socketOpen t) false
                       (listening t) (sendPending t))) with (closes t) by reflexivity.
    cbn. lia.
  - destruct (socketOpen t && listening t) eqn:HA; [|lia].
    unfold closesInSightOfReply.
    rewrite CallFacts.onMessage_closes, CallFacts.onMessage_timerArmed,
      ExchangeFacts.onMessage_listening.
    cbn [handling listening]. rewrite HA, andb_false_r, orb_true_r.
    replace (closes (handling t)) with (closes t) by reflexivity.
    destruct (List.length message <? 11)%nat; unfold closes; cbn; lia.
Qed.

Lemma run_closesInSightOfReply events : forall t,
  sendsSucceed events ->
  (closesInSightOfReply (run this ip port opcode events t) <= closesInSightOfReply t)%nat.
Proof.
  induction events as [|e events IH]; intros t Hs; [cbn; lia|].
  rewrite ExchangeFacts.run_cons.
  assert (Hs' : sendsSucceed events)
    by (intros err Hin; apply (Hs err); right; exact Hin).
  pose proof (IH (step this ip port opcode t e) Hs').
  assert (He : forall err, e <> SendDone (Some err))
    by (intros err ->; apply (Hs err); left; reflexivity).
  pose proof (step_closesInSightOfReply t e He). lia.
Qed.

(** A callback adds to the log nothing but the timer cleared and the
    socket closed. *)
Lemma step_log t e :
  exists calls, log (step this ip port opcode t e) = log t ++ calls
                /\ Forall callbackCall calls.
Proof.
  destruct e as [[err|] | | message]; cbn [step].
  - destruct (sendPending t).
    + exists [Close]. split; [|constructor; [right; reflexivity | constructor]].
      cbn [close call log]. rewrite (proj1 (CallFacts.settle_flags _ _)). reflexivity.
    + exists []. split; [rewrite app_nil_r; reflexivity | constructor].
  - exists []. split; [|constructor].
    rewrite app_nil_r. destruct (sendPending t); reflexivity.
  - destruct (timerArmed t).
    + exists [Close]. split; [|constructor; [right; reflexivity | constructor]].
      rewrite (proj1 (CallFacts.settle_flags _ _)). reflexivity.
    + exists []. split; [rewrite app_nil_r; reflexivity | constructor].
  - destruct (socketOpen t && listening t).
    + rewrite CallFacts.onMessage_log. cbn [log].
      destruct (List.length message <? 11)%nat; eexists; (split; [reflexivity|]).
      * constructor; [left; reflexivity | constructor].
      * constructor; [left; reflexivity|]. constructor; [right; reflexivity|].
        constructor.
    + exists []. split; [rewrite app_nil_r; reflexivity | constructor].
Qed.

Lemma run_log events : forall t,
  exists calls, log (run this ip port opcode events t) = log t ++ calls
                /\ Forall callbackCall calls.
Proof.
  induction events as [|e events IH]; intros t.
  - exists []. split; [cbn; rewrite app_nil_r; reflexivity | constructor].
  - rewrite ExchangeFacts.run_cons.
    destruct (IH (step this ip port opcode t e)) as (calls2 & E2 & F2).
    destruct (step_log t e) as (calls1 & E1 & F1).
    exists (calls1 ++ calls2). split.
    + rewrite E2, E1, app_assoc. reflexivity.
    + apply Forall_app. split; assumption.
Qed.

(** An open socket stays accounted for. *)
Lemma step_openSocketAccounted t e :
  openSocketAccounted this t ->
  openSocketAccounted this (step this ip port opcode t e).
Proof.
  intros H. destruct e as [[err|] | | message]; cbn [step].
  - destruct (sendPending t); [|exact H].
    intros HO. exfalso. revert HO. cbn. discriminate.
  - destruct (sendPending t); exact H.
  - destruct (timerArmed t); [|exact H].
    intros HO. exfalso. revert HO.
    rewrite (proj1 (proj2 (CallFacts.settle_flags _ _))). cbn. discriminate.
  - destruct (socketOpen t && listening t) eqn:HA; [|exact H].
    apply andb_true_iff in HA. destruct HA as [HO HL].
    destruct (H HO) as [(_ & _ & Hp) | (HL' & _)]; [|congruence].
    intros HO'. right.
    rewrite CallFacts.onMessage_socketOpen in HO'.
    rewrite ExchangeFacts.onMessage_listening, CallFacts.onMessage_timerArmed.
    pose proof (CallFacts.onMessage_promise this opcode message (handling t) Hp) as Hm.
    destruct (List.length message <? 11)%nat; [|discriminate HO'].
    unfold handling in Hm. rewrite Hm. repeat split.
Qed.

Lemma run_openSocketAccounted events : forall t,
  openSocketAccounted this t ->
  openSocketAccounted this (run this ip port opcode events t).
Proof.
  induction events as [|e events IH]; intros t H; [exact H|].
  rewrite ExchangeFacts.run_cons. apply IH. apply step_openSocketAccounted. exact H.
Qed.

End Run.

End RunFacts.

(** The default target is a valid one. *)
Lemma localhost_valid : validTarget noOptions noOptions noDns.
Proof.
  exists ["127"; "0"; "0"; "1"]%string, [127; 0; 0; 1].
  split; [discriminate|]. split; [reflexivity|]. split; [|cbn; lia].
  repeat (apply Forall2_cons; [split; [reflexivity | lia]|]). apply Forall2_nil.
Qed.


(** The senders of a log that is two logs. *)
Lemma packetsSent_app calls1 calls2 :
  packetsSent (calls1 ++ calls2) = packetsSent calls1 ++ packetsSent calls2.
Proof.
  induction calls1 as [|a calls1 IH]; [reflexivity|].
  destruct a; cbn [app packetsSent]; rewrite IH; reflexivity.
Qed.

(** The callbacks send nothing. *)
Lemma packetsSent_callbacks calls :
  Forall callbackCall calls -> packetsSent calls = [].
Proof.
  induction 1 as [|a calls [-> | ->] _ IH]; [reflexivity | exact IH | exact IH].
Qed.

(** A call to a valid target sends one packet, whatever the events, and
    that packet ends with the code of its opcode. *)
Lemma asked_once this opts opcode dns events t :
  validTarget this opts dns -> request this opts opcode dns events = Some t ->
  asked t = [charCode opcode].
Proof.
  intros (parts & octets & Hne & Haddr & Hoct & Hport) E.
  pose proof (PacketFacts.request_begins this opts opcode dns parts octets
                Hne Haddr Hoct Hport) as H0.
  pose proof (ExchangeFacts.request_app this opts opcode dns [] events _
                H0 eq_refl) as H1.
  cbn [app] in H1. rewrite H1 in E. injection E as <-.
  match goal with
  | |- asked (run _ _ _ _ _ ?t0) = _ =>
      destruct (RunFacts.run_log this (targetIp this opts dns) (requestPort this opts)
                  opcode events t0) as (calls & Hl & Hc)
  end.
  unfold asked. rewrite Hl. cbn [log].
  rewrite !packetsSent_app, (packetsSent_callbacks calls Hc), app_nil_r.
  assert (Hlook : packetsSent (log (lookedUp this opts)) = [])
    by (unfold lookedUp; destruct (requestResolveHost this opts); reflexivity).
  rewrite Hlook. cbn [app packetsSent map]. f_equal.
  unfold wireRequest.
  change [Z.land (requestPort this opts) 255;
          Z.land (Z.shiftr (requestPort this opts) 8) 255; charCode opcode]
    with ([Z.land (requestPort this opts) 255;
           Z.land (Z.shiftr (requestPort this opts) 8) 255] ++ [charCode opcode]).
  rewrite !app_assoc. apply last_last.
Qed.

(** ** One outcome, and where it comes from *)

(** X1.  The promise of a call is settled once: whatever the event loop
    delivers after the promise is settled, its outcome stays. *)
Theorem outcome_is_final this opts opcode dns events more s :
  outcome (request this opts opcode dns events) = Some s ->
  outcome (request this opts opcode dns (events ++ more)) = Some s.
Proof.
  intros H. destruct (request this opts opcode dns events) as [t|] eqn:E;
    [|discriminate H].
  cbn [outcome] in H.
  destruct (CallFacts.request_cases _ _ _ _ _ _ E) as [(e & _ & _ & Hall) | (t0 & _ & _ & Hall)].
  - rewrite Hall. exact H.
  - rewrite Hall in E. injection E as <-.
    rewrite Hall, ExchangeFacts.run_app. cbn [outcome].
    apply ExchangeFacts.run_settled. exact H.
Qed.

Lemma outcome_is_final_witness :
  outcome (request noOptions noOptions op_i noDns
             ([SendDone None; TimerFired]
              ++ [Message (header ++ wireInfo 0 12 32 (str "Test") (str "DM") (str "EN"))]))
  = Some (Rejected (Error "[sampquery] [127.0.0.1:7777] host unavailable")).
Proof.
  apply (outcome_is_final noOptions noOptions op_i noDns [SendDone None; TimerFired]).
  reflexivity.
Defined.

Lemma decode_shape opcode bs v bs' :
  decode opcode bs = inr (Some v, bs') -> shapeOf v = opcode.
Proof.
  destruct opcode; cbn [decode]; unfold BitStream.bind, BitStream.ret; intros H.
  - destruct (readInfo bs) as [f | [a b]]; [discriminate|].
    injection H as <- _. reflexivity.
  - destruct (readRules bs) as [f | [a b]]; [discriminate|].
    injection H as <- _. reflexivity.
  - destruct (readPlayersDetailedLoop (loopFuel bs) 0 [] bs) as [f | [[a|] b]];
      try discriminate.
    injection H as <- _. reflexivity.
  - destruct (readPlayersLoop (loopFuel bs) 0 [] bs) as [f | [[a|] b]];
      try discriminate.
    injection H as <- _. reflexivity.
Qed.

(** X2.  A call resolves only with what the handler decoded from a
    datagram of 11 bytes or more among its events, never from the timer or
    the send callback, and the value has the shape of the opcode asked. *)
Theorem resolved_only_by_datagram this opts opcode dns events v :
  outcome (request this opts opcode dns events) = Some (Resolved v) ->
  decodedFrom opcode events v /\ shapeOf v = opcode.
Proof.
  intros H. destruct (request this opts opcode dns events) as [t|] eqn:E;
    [|discriminate H].
  cbn [outcome] in H.
  destruct (CallFacts.request_cases _ _ _ _ _ _ E)
    as [(e & _ & -> & _) | (t0 & Hfresh & _ & Hall)].
  - discriminate H.
  - rewrite Hall in E. injection E as <-.
    destruct Hfresh as (Hp & _).
    pose proof (RunFacts.run_resolved _ _ _ _ _ _ _ Hp H) as Hd.
    split; [exact Hd|].
    destruct Hd as (message & bs & _ & _ & Hdec).
    exact (decode_shape _ _ _ _ Hdec).
Qed.

Lemma resolved_only_by_datagram_witness :
  decodedFrom op_r [SendDone None; Message (header ++ wireRules [])] (RulesResult [])
  /\ shapeOf (RulesResult []) = op_r.
Proof.
  apply (resolved_only_by_datagram noOptions noOptions op_r noDns).
  reflexivity.
Defined.

(** X3.  A followed call, one the name resolution rejects or one to an
    address of decimal octets and a port from 1 to 65535, is rejected with
    the error of the name resolution or of the send callback, the "host
    unavailable" error naming the address and port the packet went to, the
    "invalid message" error, or the truncation fault of the codec, and with
    nothing else. *)
Theorem rejection_reasons this opts opcode dns events r :
  followed this opts dns ->
  outcome (request this opts opcode dns events) = Some (Rejected r) ->
  (exists e, r = External e)
  \/ r = hostUnavailable (targetIp this opts dns) (requestPort this opts)
  \/ r = invalidMessage this
  \/ r = Thrown BitStream.TruncatedBuffer.
Proof.
  intros _ H. destruct (request this opts opcode dns events) as [t|] eqn:E;
    [|discriminate H].
  cbn [outcome] in H.
  destruct (CallFacts.request_cases _ _ _ _ _ _ E)
    as [(e & _ & -> & _) | (t0 & Hfresh & _ & Hall)].
  - cbn in H. injection H as <-. left. exists e. reflexivity.
  - rewrite Hall in E. injection E as <-.
    destruct Hfresh as (Hp & _).
    destruct (RunFacts.run_rejected _ _ _ _ _ _ _ Hp H)
      as (e & _ & [(err & _ & ->) | [(_ & ->) | [(m & _ & _ & ->) | (m & _ & _ & ->)]]]).
    + left. exists err. reflexivity.
    + right. left. reflexivity.
    + right. right. left. reflexivity.
    + right. right. right. reflexivity.
Qed.

Lemma rejection_reasons_witness :
  (exists e, Error "[sampquery] [127.0.0.1:7777] host unavailable" = External e)
  \/ Error "[sampquery] [127.0.0.1:7777] host unavailable"
     = hostUnavailable (targetIp noOptions noOptions noDns) (requestPort noOptions noOptions)
  \/ Error "[sampquery] [127.0.0.1:7777] host unavailable" = invalidMessage noOptions
  \/ Error "[sampquery] [127.0.0.1:7777] host unavailable"
     = Thrown BitStream.TruncatedBuffer.
Proof.
  apply (rejection_reasons noOptions noOptions op_d noDns [SendDone None; TimerFired]).
  - right. exact localhost_valid.
  - reflexivity.
Defined.

(** ** The socket, over every sequence of events *)

(** X4.  [socket.close()] is called at most twice in a call, and at most
    once when the send callback reports no error. *)
Theorem socket_closed_at_most_twice this opts opcode dns events t :
  request this opts opcode dns events = Some t ->
  (closes t <= 2)%nat /\ (sendsSucceed events -> (closes t <= 1)%nat).
Proof.
  intros E.
  destruct (CallFacts.request_cases _ _ _ _ _ _ E)
    as [(e & _ & -> & _) | (t0 & Hfresh & _ & Hall)].
  - rewrite ExchangeFacts.closes_settle. cbn. split; [lia | intros _; lia].
  - rewrite Hall in E. injection E as <-.
    destruct Hfresh as (_ & HO & HT & HL & HS & HC). split.
    + pose proof (RunFacts.run_closesInSight this (targetIp this opts dns)
                    (requestPort this opts) opcode events t0) as H.
      unfold closesInSight in H at 2. rewrite HC, HS, HT in H. cbn in H.
      unfold closesInSight in H. lia.
    + intros Hs.
      pose proof (RunFacts.run_closesInSightOfReply this (targetIp this opts dns)
                    (requestPort this opts) opcode events t0 Hs) as H.
      unfold closesInSightOfReply in H at 2. rewrite HC, HT in H. cbn in H.
      unfold closesInSightOfReply in H. lia.
Qed.

Lemma socket_closed_at_most_twice_witness :
  Nat.le
    (closes (mkTransaction
               [CreateSocket; Send [83; 65; 77; 80; 127; 0; 0; 1; 97; 30; 105] 7777 "127.0.0.1";
                SetTimeout 2000; OnceMessage; Close]
               (Some (Rejected (hostUnavailable "127.0.0.1" 7777)))
               false false true false)) 2
  /\ Nat.le
       (closes (mkTransaction
                  [CreateSocket;
                   Send [83; 65; 77; 80; 127; 0; 0; 1; 97; 30; 105] 7777 "127.0.0.1";
                   SetTimeout 2000; OnceMessage; Close]
                  (Some (Rejected (hostUnavailable "127.0.0.1" 7777)))
                  false false true false)) 1.
Proof.
  destruct (socket_closed_at_most_twice noOptions noOptions op_i noDns
              [SendDone None; TimerFired; SendDone None] _ eq_refl) as [H2 H1].
  split; [exact H2 | apply H1].
  intros e [H | [H | [H | []]]]; discriminate H.
Defined.

Lemma run_openNotClosed this ip port opcode events : forall t,
  (socketOpen t = true -> closes t = 0%nat) ->
  socketOpen (run this ip port opcode events t) = true ->
  closes (run this ip port opcode events t) = 0%nat.
Proof.
  induction events as [|e events IH]; intros t H; [exact H|].
  rewrite ExchangeFacts.run_cons. apply IH. clear IH.
  destruct e as [[err|] | | message]; cbn [step].
  - destruct (sendPending t); [|exact H]. cbn. discriminate.
  - destruct (sendPending t); exact H.
  - destruct (timerArmed t); [|exact H].
    rewrite (proj1 (proj2 (CallFacts.settle_flags _ _))). cbn. discriminate.
  - destruct (socketOpen t && listening t); [|exact H].
    rewrite CallFacts.onMessage_socketOpen, CallFacts.onMessage_closes.
    destruct (List.length message <? 11)%nat; [exact H | discriminate].
Qed.

(** X5.  A call to a valid target, an address of decimal octets and a
    port from 1 to 65535, that is settled while its socket is still open
    was rejected with the "invalid message" error, and its socket was never
    closed: for such a call the short datagram is the only way to leave the
    socket open. *)
Theorem open_socket_only_after_short_datagram this opts opcode dns events t s :
  validTarget this opts dns ->
  request this opts opcode dns events = Some t ->
  socketOpen t = true -> promise t = Some s ->
  s = Rejected (invalidMessage this) /\ closes t = 0%nat
  /\ timerArmed t = false /\ listening t = false.
Proof.
  intros _ E HO Hs.
  destruct (CallFacts.request_cases _ _ _ _ _ _ E)
    as [(e & _ & -> & _) | (t0 & Hfresh & _ & Hall)].
  - rewrite (proj1 (proj2 (CallFacts.settle_flags _ _))) in HO. discriminate HO.
  - rewrite Hall in E. injection E as <-.
    destruct Hfresh as (Hp & HO0 & HT & HL & HS & HC).
    assert (Hacc : openSocketAccounted this t0)
      by (intros _; left; repeat split; assumption).
    destruct (RunFacts.run_openSocketAccounted this (targetIp this opts dns)
                (requestPort this opts) opcode events t0 Hacc HO)
      as [(_ & _ & Hnone) | (HL' & HT' & Hrej)]; [congruence|].
    rewrite Hrej in Hs. injection Hs as <-. repeat split; try assumption.
    apply run_openNotClosed; [intros _; exact HC | exact HO].
Qed.

Lemma open_socket_only_after_short_datagram_witness :
  Rejected (Error "[sampquery] [undefined:undefined] invalid message from socket")
  = Rejected (invalidMessage noOptions)
  /\ 0%nat = 0%nat /\ false = false /\ false = false.
Proof.
  eapply (open_socket_only_after_short_datagram noOptions noOptions op_c noDns
            [SendDone None; Message [1; 2; 3]; TimerFired]
            (mkTransaction
               [CreateSocket; Send [83; 65; 77; 80; 127; 0; 0; 1; 97; 30; 99] 7777 "127.0.0.1";
                SetTimeout 2000; OnceMessage; ClearTimeout]
               (Some (Rejected
                  (Error "[sampquery] [undefined:undefined] invalid message from socket")))
               true false false false)).
  - exact localhost_valid.
  - reflexivity.
  - reflexivity.
  - reflexivity.
Defined.



(** ** The decoders, further *)

Module DecoderFacts.
Import BitStream.

(** A reply whose payload a decoder reads a value from resolves the call
    with it; one it faults on rejects the call with the fault. *)
Lemma resolved_by_yields this opts opcode dns before t hdr payload v rest more :
  request this opts opcode dns before = Some t -> awaiting t ->
  List.length hdr = 11%nat ->
  yields (decode opcode) payload (Some v) rest ->
  outcome (request this opts opcode dns (before ++ Message (hdr ++ payload) :: more))
  = Some (Resolved v).
Proof.
  intros H HA Hhdr Hy.
  apply (ExchangeFacts.outcome_delivered _ _ _ _ _ _ _ _ _ H HA).
  destruct (ExchangeFacts.delivered _ _ _ _ _ _ (hdr ++ payload) more H HA)
    as (_ & Hp & _).
  destruct (ExchangeFacts.onMessage_long this opcode (hdr ++ payload) (handling t))
    as (-> & _); [rewrite length_app; lia | exact Hp |].
  rewrite (ExchangeFacts.replyReader_app _ _ Hhdr).
  destruct (Hy (mk payload 0 0)) as (bs' & -> & _);
    [unfold wf; cbn; lia | reflexivity | reflexivity].
Qed.

Lemma rejected_by_faults this opts opcode dns before t hdr payload f more :
  request this opts opcode dns before = Some t -> awaiting t ->
  List.length hdr = 11%nat ->
  faults (decode opcode) payload f ->
  outcome (request this opts opcode dns (before ++ Message (hdr ++ payload) :: more))
  = Some (Rejected (Thrown f)).
Proof.
  intros H HA Hhdr Hf.
  apply (ExchangeFacts.outcome_delivered _ _ _ _ _ _ _ _ _ H HA).
  destruct (ExchangeFacts.delivered _ _ _ _ _ _ (hdr ++ payload) more H HA)
    as (_ & Hp & _).
  destruct (ExchangeFacts.onMessage_long this opcode (hdr ++ payload) (handling t))
    as (-> & _); [rewrite length_app; lia | exact Hp |].
  rewrite (ExchangeFacts.replyReader_app _ _ Hhdr).
  rewrite (Hf (mk payload 0 0)); [reflexivity | unfold wf; cbn; lia | reflexivity].
Qed.

Lemma yields_decode_i input info rest :
  yields readInfo input info rest ->
  yields (decode op_i) input (Some (InfoResult info)) rest.
Proof.
  intros H. cbn [decode].
  eapply ReadFacts.yields_bind; [exact H | apply ReadFacts.yields_ret].
Qed.

Lemma yields_decode_r input rules rest :
  yields readRules input rules rest ->
  yields (decode op_r) input (Some (RulesResult rules)) rest.
Proof.
  intros H. cbn [decode].
  eapply ReadFacts.yields_bind; [exact H | apply ReadFacts.yields_ret].
Qed.

(** The loops of ['d'] and ['c'] under the fuel [decode] gives them. *)
Lemma yields_decode_d input ps rest n :
  (n <= List.length input)%nat ->
  (forall fuel, (n < fuel)%nat ->
     yields (readPlayersDetailedLoop fuel 0 []) input (Some ps) rest) ->
  yields (decode op_d) input (Some (PlayersDetailedResult ps)) rest.
Proof.
  intros Hn H bs W R. cbn [decode].
  assert (Hfuel : (n < loopFuel bs)%nat) by (unfold loopFuel; rewrite R; lia).
  destruct (H _ Hfuel bs W R) as (bs' & E & W' & R' & B').
  exists bs'. unfold bind, ret. rewrite E. repeat split; assumption.
Qed.

Lemma yields_decode_c input ps rest n :
  (n <= List.length input)%nat ->
  (forall fuel, (n < fuel)%nat ->
     yields (readPlayersLoop fuel 0 []) input (Some ps) rest) ->
  yields (decode op_c) input (Some (PlayersResult ps)) rest.
Proof.
  intros Hn H bs W R. cbn [decode].
  assert (Hfuel : (n < loopFuel bs)%nat) by (unfold loopFuel; rewrite R; lia).
  destruct (H _ Hfuel bs W R) as (bs' & E & W' & R' & B').
  exists bs'. unfold bind, ret. rewrite E. repeat split; assumption.
Qed.

Lemma faults_decode_d input f :
  (forall fuel, (2 <= fuel)%nat ->
     faults (readPlayersDetailedLoop fuel 0 []) input f) ->
  (1 <= List.length input)%nat ->
  faults (decode op_d) input f.
Proof.
  intros H Hn bs W R. cbn [decode]. unfold bind.
  rewrite (H (loopFuel bs)); [reflexivity | unfold loopFuel; rewrite R; lia | | ];
    assumption.
Qed.

Lemma faults_decode_c input f :
  (forall fuel, (2 <= fuel)%nat ->
     faults (readPlayersLoop fuel 0 []) input f) ->
  (1 <= List.length input)%nat ->
  faults (decode op_c) input f.
Proof.
  intros H Hn bs W R. cbn [decode]. unfold bind.
  rewrite (H (loopFuel bs)); [reflexivity | unfold loopFuel; rewrite R; lia | | ];
    assumption.
Qed.

(** A count of 0 ends a list at once, whatever follows it. *)
Lemma yields_empty opcode v rest :
  emptyList opcode = Some v ->
  yields (decode opcode) (u16 0 ++ rest) (Some v) rest.
Proof.
  destruct opcode; cbn [emptyList]; intros E; try discriminate E;
    injection E as <-.
  - apply yields_decode_r. unfold readRules.
    eapply ReadFacts.yields_bind; [apply ReadFacts.yields_readUInt16|].
    cbn. apply ReadFacts.yields_ret.
  - apply (yields_decode_d _ _ _ 0); [lia|].
    intros [|fuel] Hf; [lia|]. cbn [readPlayersDetailedLoop].
    eapply ReadFacts.yields_bind; [apply ReadFacts.yields_readUInt16|].
    cbn. apply ReadFacts.yields_ret.
  - apply (yields_decode_c _ _ _ 0); [lia|].
    intros [|fuel] Hf; [lia|]. cbn [readPlayersLoop].
    eapply ReadFacts.yields_bind; [apply ReadFacts.yields_readUInt16|].
    cbn. apply ReadFacts.yields_ret.
Qed.

(** The loop of ['d'] on the layout it reads: every record, in order. *)
Lemma yields_recounted ps : forall bounds stop i acc rest fuel,
  List.length bounds = List.length ps -> countsAbove i bounds ->
  stop <= i + Z.of_nat (List.length ps) ->
  (List.length ps < fuel)%nat ->
  yields (readPlayersDetailedLoop fuel i acc)
    (wireRecounted bounds ps stop ++ rest)
    (Some (acc ++ map decodedPlayer ps)) rest.
Proof.
  induction ps as [|p ps IH]; intros bounds stop i acc rest fuel Hlen Hab Hstop Hfuel.
  - destruct bounds; [|discriminate Hlen]. destruct fuel as [|fuel]; [lia|].
    cbn [wireRecounted readPlayersDetailedLoop map].
    eapply ReadFacts.yields_bind; [apply ReadFacts.yields_readUInt16|].
    replace (i <? stop) with false by (symmetry; apply Z.ltb_ge; cbn in Hstop; lia).
    rewrite app_nil_r. apply ReadFacts.yields_ret.
  - destruct bounds as [|b bounds]; [discriminate Hlen|].
    destruct fuel as [|fuel]; [lia|].
    destruct Hab as [Hb Hab]. injection Hlen as Hlen.
    cbn [wireRecounted readPlayersDetailedLoop map]. unfold wirePlayerBytes.
    rewrite <- !app_assoc.
    eapply ReadFacts.yields_bind; [apply ReadFacts.yields_readUInt16|].
    replace (i <? b) with true by (symmetry; apply Z.ltb_lt; exact Hb).
    cbn [app].
    eapply ReadFacts.yields_bind; [apply ReadFacts.yields_readUInt8|].
    unfold field8. cbn [app].
    eapply ReadFacts.yields_bind; [apply ReadFacts.yields_readUInt8|].
    eapply ReadFacts.yields_bind; [apply ReadFacts.yields_string|].
    eapply ReadFacts.yields_bind; [apply ReadFacts.yields_readUInt32|].
    eapply ReadFacts.yields_bind; [apply ReadFacts.yields_readUInt32|].
    replace (acc ++ decodedPlayer p :: map decodedPlayer ps)
      with ((acc ++ [decodedPlayer p]) ++ map decodedPlayer ps)
      by (rewrite <- app_assoc; reflexivity).
    apply IH; [exact Hlen | exact Hab | | cbn in Hfuel; lia].
    cbn [List.length] in Hstop. lia.
Qed.

Lemma length_wireRecounted ps : forall bounds stop,
  List.length bounds = List.length ps ->
  (List.length ps <= List.length (wireRecounted bounds ps stop))%nat.
Proof.
  induction ps as [|p ps IH]; intros bounds stop Hlen; [cbn; lia|].
  destruct bounds as [|b bounds]; [discriminate Hlen|]. injection Hlen as Hlen.
  cbn [wireRecounted]. rewrite !length_app. specialize (IH bounds stop Hlen).
  cbn [List.length u16]. lia.
Qed.

(** The same for the loop of ['c']. *)
Lemma yields_statsRecounted ps : forall bounds stop i acc rest fuel,
  List.length bounds = List.length ps -> countsAbove i bounds ->
  stop <= i + Z.of_nat (List.length ps) ->
  (List.length ps < fuel)%nat ->
  yields (readPlayersLoop fuel i acc)
    (wireStatsRecounted bounds ps stop ++ rest)
    (Some (acc ++ map decodedStat ps)) rest.
Proof.
  induction ps as [|p ps IH]; intros bounds stop i acc rest fuel Hlen Hab Hstop Hfuel.
  - destruct bounds; [|discriminate Hlen]. destruct fuel as [|fuel]; [lia|].
    cbn [wireStatsRecounted readPlayersLoop map].
    eapply ReadFacts.yields_bind; [apply ReadFacts.yields_readUInt16|].
    replace (i <? stop) with false by (symmetry; apply Z.ltb_ge; cbn in Hstop; lia).
    rewrite app_nil_r. apply ReadFacts.yields_ret.
  - destruct bounds as [|b bounds]; [discriminate Hlen|].
    destruct fuel as [|fuel]; [lia|].
    destruct Hab as [Hb Hab]. injection Hlen as Hlen.
    cbn [wireStatsRecounted readPlayersLoop map].
    rewrite <- !app_assoc.
    eapply ReadFacts.yields_bind; [apply ReadFacts.yields_readUInt16|].
    replace (i <? b) with true by (symmetry; apply Z.ltb_lt; exact Hb).
    unfold field8. cbn [app].
    eapply ReadFacts.yields_bind; [apply ReadFacts.yields_readUInt8|].
    eapply ReadFacts.yields_bind; [apply ReadFacts.yields_string|].
    eapply ReadFacts.yields_bind; [apply ReadFacts.yields_readUInt32|].
    replace (acc ++ decodedStat p :: map decodedStat ps)
      with ((acc ++ [decodedStat p]) ++ map decodedStat ps)
      by (rewrite <- app_assoc; reflexivity).
    apply IH; [exact Hlen | exact Hab | | cbn in Hfuel; lia].
    cbn [List.length] in Hstop. lia.
Qed.

Lemma length_wireStatsRecounted ps : forall bounds stop,
  List.length bounds = List.length ps ->
  (List.length ps <= List.length (wireStatsRecounted bounds ps stop))%nat.
Proof.
  induction ps as [|p ps IH]; intros bounds stop Hlen; [cbn; lia|].
  destruct bounds as [|b bounds]; [discriminate Hlen|]. injection Hlen as Hlen.
  cbn [wireStatsRecounted]. rewrite !length_app. specialize (IH bounds stop Hlen).
  cbn [List.length u16]. lia.
Qed.

(** A ['c'] reply with one record: the second count is read past the
    end. *)
Lemma single_stat_faults p fuel :
  (2 <= fuel)%nat ->
  faults (readPlayersLoop fuel 0 []) (wirePlayers [p]) TruncatedBuffer.
Proof.
  intros Hfuel. destruct fuel as [|[|fuel]]; try lia.
  unfold wirePlayers.
  cbn [List.length map List.concat]. rewrite app_nil_r.
  rewrite <- (app_nil_r (u32 (snd p))).
  cbn [readPlayersLoop].
  eapply ReadFacts.faults_bind_r; [apply ReadFacts.yields_readUInt16|].
  change (0 <? Z.of_nat 1) with true. cbv iota.
  unfold field8. cbn [app].
  eapply ReadFacts.faults_bind_r; [apply ReadFacts.yields_readUInt8|].
  eapply ReadFacts.faults_bind_r; [apply ReadFacts.yields_string|].
  eapply ReadFacts.faults_bind_r; [apply ReadFacts.yields_readUInt32|].
  apply ReadFacts.faults_bind_l. unfold readUInt16, readUInt.
  apply ReadFacts.faults_bind_l.
  apply ReadFacts.faults_readBytes. cbn. lia.
Qed.

(** *** How many bytes a decoder needs *)

Lemma consumes_ret {A} (a : A) : consumes (ret a) 0.
Proof. intros bs a' bs' _ H. injection H as _ <-. lia. Qed.

Lemma consumes_bind {A B} (m : Read A) (k : A -> Read B) n1 n2 :
  steady m -> consumes m n1 -> (forall a, consumes (k a) n2) ->
  consumes (bind m k) (n1 + n2).
Proof.
  intros Hs Hm Hk bs b bs' W H. unfold bind in H.
  destruct (m bs) as [f | [a bs1]] eqn:E; [discriminate|].
  destruct (Hs _ _ _ W E) as (_ & W1 & _).
  pose proof (Hm _ _ _ W E). pose proof (Hk a _ _ _ W1 H). lia.
Qed.

Lemma consumes_readUInt w : consumes (readUInt w) (Z.to_nat w + 0).
Proof.
  apply consumes_bind; [apply ReadFacts.steady_readBytes | | intro; apply consumes_ret].
  intros bs raw bs' W H.
  destruct (ReadFacts.readBytes_inr _ _ _ _ W H) as (_ & _ & L & _). lia.
Qed.

Lemma consumes_string n : consumes (bsReadCP1251String n) 0.
Proof.
  intros bs a bs' W H.
  destruct (ReadFacts.steady_string n _ _ _ W H) as (_ & _ & L). lia.
Qed.

(** The fixed fields of ['i'] take 17 bytes. *)
Lemma consumes_readInfo : consumes readInfo 17.
Proof.
  unfold readInfo, readBoolean, readUInt8, readUInt16, readUInt32.
  change 17%nat
    with (((Z.to_nat 1 + 0) + 0)
          + ((Z.to_nat 2 + 0)
             + ((Z.to_nat 2 + 0)
                + ((Z.to_nat 4 + 0)
                   + (0 + ((Z.to_nat 4 + 0)
                           + (0 + ((Z.to_nat 4 + 0) + (0 + 0)))))))))%nat.
  apply consumes_bind.
  { apply ReadFacts.steady_bind; [apply ReadFacts.steady_readUInt | intro; apply ReadFacts.steady_ret]. }
  { apply consumes_bind; [apply ReadFacts.steady_readUInt | apply consumes_readUInt
                         | intro; apply consumes_ret]. }
  intro.
  repeat (apply consumes_bind;
          [first [apply ReadFacts.steady_readUInt | apply ReadFacts.steady_string]
          | first [apply consumes_readUInt | apply consumes_string]
          | intro]).
  apply consumes_ret.
Qed.

(** A payload below the least size of its opcode is a truncation. *)
Lemma short_payload_faults opcode payload :
  (List.length payload < minPayload opcode)%nat ->
  faults (decode opcode) payload TruncatedBuffer.
Proof.
  intros Hlen.
  destruct opcode; cbn [minPayload] in Hlen.
  - intros bs W R.
    destruct (decode op_i bs) as [f | [v bs']] eqn:E.
    + f_equal. apply (ReadFacts.onlyTruncated_decode op_i _ _ E).
    + exfalso. cbn [decode] in E. unfold bind, ret in E.
      destruct (readInfo bs) as [f | [info bs1]] eqn:E1; [discriminate|].
      pose proof (consumes_readInfo _ _ _ W E1) as Hc. rewrite R in Hc. lia.
  - cbn [decode]. apply ReadFacts.faults_bind_l. unfold readRules.
    apply ReadFacts.faults_bind_l. unfold readUInt16, readUInt.
    apply ReadFacts.faults_bind_l. apply ReadFacts.faults_readBytes. exact Hlen.
  - intros bs W R. cbn [decode]. unfold loopFuel. cbn [readPlayersDetailedLoop].
    assert (Hu : readUInt16 bs = inl TruncatedBuffer).
    { revert bs W R. change (faults readUInt16 payload TruncatedBuffer).
      unfold readUInt16, readUInt.
      apply ReadFacts.faults_bind_l. apply ReadFacts.faults_readBytes. exact Hlen. }
    unfold bind at 1 2. rewrite Hu. reflexivity.
  - intros bs W R. cbn [decode]. unfold loopFuel. cbn [readPlayersLoop].
    assert (Hu : readUInt16 bs = inl TruncatedBuffer).
    { revert bs W R. change (faults readUInt16 payload TruncatedBuffer).
      unfold readUInt16, readUInt.
      apply ReadFacts.faults_bind_l. apply ReadFacts.faults_readBytes. exact Hlen. }
    unfold bind at 1 2. rewrite Hu. reflexivity.
Qed.

(** *** Calls that get one datagram *)

(** A call on a valid target awaits its reply once the send callback has
    reported no error. *)
Lemma awaits_reply this opts opcode dns :
  validTarget this opts dns ->
  exists t, request this opts opcode dns [SendDone None] = Some t
            /\ awaiting t /\ sendPending t = false.
Proof.
  intros (parts & octets & Hne & Haddr & Hoct & Hport).
  pose proof (PacketFacts.request_begins this opts opcode dns parts octets
                Hne Haddr Hoct Hport) as H0.
  pose proof (ExchangeFacts.request_app this opts opcode dns [] [SendDone None] _
                H0 eq_refl) as H1.
  cbn [app] in H1. rewrite H1. eexists. split; [reflexivity|].
  cbn. repeat split.
Qed.

(** What such a call is after a datagram of 11 bytes or more. *)
Lemma answered this opts opcode dns reply :
  validTarget this opts dns -> (11 <= List.length reply)%nat ->
  exists t,
    request this opts opcode dns [SendDone None; Message reply] = Some t
    /\ promise t = match decode opcode (replyReader reply) with
                   | inl f => Some (Rejected (Thrown f))
                   | inr (Some value, _) => Some (Resolved value)
                   | inr (None, _) => None
                   end
    /\ closes t = 1%nat.
Proof.
  intros Hv Hlen.
  destruct (awaits_reply this opts opcode dns Hv) as (t & E & HA & HS).
  destruct (ExchangeFacts.delivered _ _ _ _ _ _ reply [] E HA) as (Ed & Hp & Hc).
  cbn [app] in Ed. rewrite Ed. eexists. split; [reflexivity|].
  destruct (ExchangeFacts.onMessage_long this opcode reply (handling t) Hlen Hp)
    as (Hpr & Hcl & _).
  cbn [run fold_left]. split; [exact Hpr | rewrite Hcl, Hc; reflexivity].
Qed.

Lemma decode_of_yields opcode hdr payload v rest :
  List.length hdr = 11%nat ->
  yields (decode opcode) payload (Some v) rest ->
  exists bs, decode opcode (replyReader (hdr ++ payload)) = inr (Some v, bs).
Proof.
  intros Hhdr Hy. rewrite (ExchangeFacts.replyReader_app _ _ Hhdr).
  destruct (Hy (mk payload 0 0)) as (bs' & E & _);
    [unfold wf; cbn; lia | reflexivity |].
  exists bs'. exact E.
Qed.

Lemma decode_of_faults opcode hdr payload f :
  List.length hdr = 11%nat ->
  faults (decode opcode) payload f ->
  decode opcode (replyReader (hdr ++ payload)) = inl f.
Proof.
  intros Hhdr Hf. rewrite (ExchangeFacts.replyReader_app _ _ Hhdr).
  apply Hf; [unfold wf; cbn; lia | reflexivity].
Qed.

(** A resolved call decoded its value from one of its datagrams. *)
Lemma resolved_decoded this opts opcode dns events t v :
  request this opts opcode dns events = Some t ->
  promise t = Some (Resolved v) ->
  decodedFrom opcode events v.
Proof.
  intros E H.
  destruct (CallFacts.request_cases _ _ _ _ _ _ E)
    as [(e & _ & -> & _) | (t0 & Hfresh & _ & Hall)].
  - discriminate H.
  - rewrite Hall in E. injection E as <-.
    destruct Hfresh as (Hp & _).
    exact (RunFacts.run_resolved _ _ _ _ _ _ _ Hp H).
Qed.

End DecoderFacts.

(** X8.  An ['r'] reply, a count and that many pairs of name and value
    behind uint8 lengths, resolves with the pairs in wire order, each text
    read through the code page; bytes after the last pair are ignored. *)
Theorem rules_reply_in_wire_order this opts dns before t hdr rs rest more :
  getServerRules this opts dns before = Some t -> awaiting t ->
  List.length hdr = 11%nat ->
  outcome (getServerRules this opts dns
             (before ++ Message (hdr ++ wireRules rs ++ rest) :: more))
  = Some (Resolved (RulesResult (map decodedRule rs))).
Proof.
  intros H HA Hhdr.
  apply (DecoderFacts.resolved_by_yields _ _ _ _ _ _ _ _ _ rest _ H HA Hhdr).
  apply DecoderFacts.yields_decode_r. apply ReadFacts.yields_readRules.
Qed.

Lemma rules_reply_in_wire_order_witness :
  outcome (request noOptions noOptions op_r noDns
             ([SendDone None]
              ++ Message (header
                          ++ wireRules [(str "mapname", str "Los Santos");
                                        (str "weather", str "10")]
                          ++ [0; 0]) :: []))
  = Some (Resolved (RulesResult [mkRule (str "mapname") (str "Los Santos");
                                 mkRule (str "weather") (str "10")])).
Proof.
  eapply (rules_reply_in_wire_order noOptions noOptions noDns [SendDone None] _ header
            [(str "mapname", str "Los Santos"); (str "weather", str "10")] [0; 0] []).
  - reflexivity.
  - split; reflexivity.
  - reflexivity.
Defined.

(** X9.  Bytes after the language field of an ['i'] reply are ignored:
    the call resolves with the same six values. *)
Theorem info_trailing_bytes_ignored this opts dns before t hdr c p mp sn gm lang
    rest more :
  getServerInfo this opts dns before = Some t -> awaiting t ->
  List.length hdr = 11%nat ->
  outcome (getServerInfo this opts dns
             (before ++ Message (hdr ++ wireInfo c p mp sn gm lang ++ rest) :: more))
  = Some (Resolved (InfoResult
            (mkInfo (negb (c =? 0)) p mp (decodeWin1251String sn)
               (decodeWin1251String gm) (decodeWin1251String lang)))).
Proof.
  intros H HA Hhdr.
  apply (DecoderFacts.resolved_by_yields _ _ _ _ _ _ _ _ _ rest _ H HA Hhdr).
  apply DecoderFacts.yields_decode_i. apply ReadFacts.yields_readInfo.
Qed.

Lemma info_trailing_bytes_ignored_witness :
  outcome (request noOptions noOptions op_i noDns
             ([SendDone None]
              ++ Message (header ++ wireInfo 1 3 50 (str "A") [] (str "RU") ++ [255; 255])
              :: []))
  = Some (Resolved (InfoResult (mkInfo true 3 50 (str "A") [] (str "RU")))).
Proof.
  eapply (info_trailing_bytes_ignored noOptions noOptions noDns [SendDone None] _ header
            1 3 50 (str "A") [] (str "RU") [255; 255] []).
  - reflexivity.
  - split; reflexivity.
  - reflexivity.
Defined.

(** X10.  For ['r'], ['d'] and ['c'] a count of 0 resolves the call with
    the empty list, whatever bytes follow the count. *)
Theorem empty_list_reply this opts opcode dns before t hdr rest more v :
  request this opts opcode dns before = Some t -> awaiting t ->
  List.length hdr = 11%nat ->
  emptyList opcode = Some v ->
  outcome (request this opts opcode dns
             (before ++ Message (hdr ++ u16 0 ++ rest) :: more))
  = Some (Resolved v).
Proof.
  intros H HA Hhdr Hv.
  apply (DecoderFacts.resolved_by_yields _ _ _ _ _ _ _ _ _ rest _ H HA Hhdr).
  apply DecoderFacts.yields_empty. exact Hv.
Qed.

Lemma empty_list_reply_witness :
  outcome (request noOptions noOptions op_c noDns
             ([SendDone None] ++ Message (header ++ u16 0 ++ [7; 7; 7]) :: []))
  = Some (Resolved (PlayersResult [])).
Proof.
  eapply (empty_list_reply noOptions noOptions op_c noDns [SendDone None] _ header
            [7; 7; 7] []).
  - reflexivity.
  - split; reflexivity.
  - reflexivity.
  - reflexivity.
Defined.

(** X11.  A layout the ['d'] decoder returns all records of: when a
    reply repeats a count before every record, the count before record [i]
    above [i], and ends with a count not above the number of records, the
    call resolves with the records in wire order. *)
Theorem recounted_players_decoded this opts dns before t hdr bounds ps stop rest more :
  getServerPlayersDetailed this opts dns before = Some t -> awaiting t ->
  List.length hdr = 11%nat ->
  List.length bounds = List.length ps -> countsAbove 0 bounds ->
  stop <= Z.of_nat (List.length ps) ->
  outcome (getServerPlayersDetailed this opts dns
             (before ++ Message (hdr ++ wireRecounted bounds ps stop ++ rest) :: more))
  = Some (Resolved (PlayersDetailedResult (map decodedPlayer ps))).
Proof.
  intros H HA Hhdr Hlen Hab Hstop.
  apply (DecoderFacts.resolved_by_yields _ _ _ _ _ _ _ _ _ rest _ H HA Hhdr).
  apply (DecoderFacts.yields_decode_d _ _ _ (List.length ps)).
  - rewrite length_app.
    pose proof (DecoderFacts.length_wireRecounted ps bounds stop Hlen). lia.
  - intros fuel Hfuel.
    apply (DecoderFacts.yields_recounted ps bounds stop 0 [] rest fuel Hlen Hab);
      [lia | exact Hfuel].
Qed.

Lemma recounted_players_decoded_witness :
  outcome (request noOptions noOptions op_d noDns
             ([SendDone None]
              ++ Message (header ++ wireRecounted [2; 2] [playerA; playerNameless] 2 ++ [])
              :: []))
  = Some (Resolved (PlayersDetailedResult
            [mkPlayer 0 [65] 1 2; mkPlayer 1 [] 3 4])).
Proof.
  eapply (recounted_players_decoded noOptions noOptions noDns [SendDone None] _ header
            [2; 2] [playerA; playerNameless] 2 [] []).
  - reflexivity.
  - split; reflexivity.
  - reflexivity.
  - reflexivity.
  - cbn. lia.
  - cbn. lia.
Defined.

(** X12.  The ['c'] decoder has the loop of ['d']: it returns all names
    and scores of a reply that repeats a count before every record and ends
    with a count not above their number. *)
Theorem recounted_stats_decoded this opts dns before t hdr bounds ps stop rest more :
  getServerPlayers this opts dns before = Some t -> awaiting t ->
  List.length hdr = 11%nat ->
  List.length bounds = List.length ps -> countsAbove 0 bounds ->
  stop <= Z.of_nat (List.length ps) ->
  outcome (getServerPlayers this opts dns
             (before ++ Message (hdr ++ wireStatsRecounted bounds ps stop ++ rest) :: more))
  = Some (Resolved (PlayersResult (map decodedStat ps))).
Proof.
  intros H HA Hhdr Hlen Hab Hstop.
  apply (DecoderFacts.resolved_by_yields _ _ _ _ _ _ _ _ _ rest _ H HA Hhdr).
  apply (DecoderFacts.yields_decode_c _ _ _ (List.length ps)).
  - rewrite length_app.
    pose proof (DecoderFacts.length_wireStatsRecounted ps bounds stop Hlen). lia.
  - intros fuel Hfuel.
    apply (DecoderFacts.yields_statsRecounted ps bounds stop 0 [] rest fuel Hlen Hab);
      [lia | exact Hfuel].
Qed.

Lemma recounted_stats_decoded_witness :
  outcome (request noOptions noOptions op_c noDns
             ([SendDone None]
              ++ Message (header ++ wireStatsRecounted [1] [([65], 9)] 0 ++ []) :: []))
  = Some (Resolved (PlayersResult [mkStat [65] 9])).
Proof.
  eapply (recounted_stats_decoded noOptions noOptions noDns [SendDone None] _ header
            [1] [([65], 9)] 0 [] []).
  - reflexivity.
  - split; reflexivity.
  - reflexivity.
  - reflexivity.
  - cbn. lia.
  - cbn. lia.
Defined.

(** X13.  A ['c'] reply of a count of 1 and one name and score is
    rejected with the truncation fault: the loop reads a count again after
    the record, past the end. *)
Theorem single_stat_reply_rejected_any this opts dns before t hdr p more :
  getServerPlayers this opts dns before = Some t -> awaiting t ->
  List.length hdr = 11%nat ->
  outcome (getServerPlayers this opts dns
             (before ++ Message (hdr ++ wirePlayers [p]) :: more))
  = Some (Rejected (Thrown BitStream.TruncatedBuffer)).
Proof.
  intros H HA Hhdr.
  apply (DecoderFacts.rejected_by_faults _ _ _ _ _ _ _ _ _ _ H HA Hhdr).
  apply DecoderFacts.faults_decode_c.
  - intros fuel Hfuel. apply DecoderFacts.single_stat_faults. exact Hfuel.
  - unfold wirePlayers. cbn. lia.
Qed.

Lemma single_stat_reply_rejected_any_witness :
  outcome (request noOptions noOptions op_c noDns
             ([SendDone None] ++ Message (header ++ wirePlayers [([65; 66], 5)]) :: []))
  = Some (Rejected (Thrown BitStream.TruncatedBuffer)).
Proof.
  eapply (single_stat_reply_rejected_any noOptions noOptions noDns [SendDone None]).
  - reflexivity.
  - split; reflexivity.
  - reflexivity.
Defined.

(** X14.  A datagram of 11 bytes or more whose payload is below 17 bytes
    for ['i'], below 2 bytes for the other opcodes, always rejects the call
    with the truncation fault. *)
Theorem short_payload_rejected this opts opcode dns before t message more :
  request this opts opcode dns before = Some t -> awaiting t ->
  (11 <= List.length message < 11 + minPayload opcode)%nat ->
  outcome (request this opts opcode dns (before ++ Message message :: more))
  = Some (Rejected (Thrown BitStream.TruncatedBuffer)).
Proof.
  intros H HA [Hlo Hhi].
  apply (ExchangeFacts.outcome_delivered _ _ _ _ _ _ _ _ _ H HA).
  destruct (ExchangeFacts.delivered _ _ _ _ _ _ message more H HA) as (_ & Hp & _).
  destruct (ExchangeFacts.onMessage_long this opcode message (handling t) Hlo Hp)
    as (-> & _).
  rewrite (DecoderFacts.short_payload_faults opcode (skipn 11 message)).
  - reflexivity.
  - rewrite length_skipn. lia.
  - apply ExchangeFacts.wf_replyReader.
  - reflexivity.
Qed.

Lemma short_payload_rejected_witness :
  outcome (request noOptions noOptions op_i noDns
             ([SendDone None]
              ++ Message (header ++ [0; 12; 0; 32; 0; 4; 0; 0; 0; 84; 101; 115; 116]) :: []))
  = Some (Rejected (Thrown BitStream.TruncatedBuffer)).
Proof.
  eapply (short_payload_rejected noOptions noOptions op_i noDns [SendDone None]).
  - reflexivity.
  - split; reflexivity.
  - cbn. lia.
Defined.

(** ** The other ends of a call *)

Lemma timeout_closes_once_witness :
  option_map closes
    (request noOptions noOptions op_i noDns
       ([SendDone None] ++ TimerFired :: [Message header; TimerFired]))
  = Some 1%nat
  /\ outcome (request noOptions noOptions op_i noDns
                ([SendDone None] ++ TimerFired :: [Message header; TimerFired]))
     = Some (Rejected (Error "[sampquery] [127.0.0.1:7777] host unavailable")).
Proof.
  eapply (timeout_closes_once noOptions noOptions op_i noDns [SendDone None]).
  - reflexivity.
  - split; reflexivity.
  - reflexivity.
Defined.

Lemma long_reply_closes_once_witness :
  option_map closes
    (request noOptions noOptions op_r noDns
       ([SendDone None] ++ Message (header ++ [9]) :: [TimerFired]))
  = Some 1%nat.
Proof.
  eapply (long_reply_closes_once noOptions noOptions op_r noDns [SendDone None]).
  - reflexivity.
  - split; reflexivity.
  - reflexivity.
  - cbn. lia.
Defined.



(** ** The facade *)

(** X19.  [getServer] asks ['d'] for its players.  For a server with one
    player connected, whose three replies are well formed, the info and the
    rules are fetched and the call then fails with the truncation fault of
    the player list; each of the three sockets has been closed once. *)
Theorem getServer_fails_on_one_player this options dns reply
    h1 h2 h3 c p mp sn gm lang rs player :
  validTarget this options dns ->
  List.length h1 = 11%nat -> List.length h2 = 11%nat -> List.length h3 = 11%nat ->
  reply op_i = h1 ++ wireInfo c p mp sn gm lang ->
  reply op_r = h2 ++ wireRules rs ->
  reply op_d = h3 ++ wirePlayersDetailed [player] ->
  option_map snd (getServer this options (answering dns reply))
  = Some (Failed (Thrown BitStream.TruncatedBuffer))
  /\ option_map (fun r => map closes (fst r))
       (getServer this options (answering dns reply))
     = Some [1; 1; 1]%nat.
Proof.
  intros Hv Hh1 Hh2 Hh3 Hi Hr Hd.
  unfold getServer, answering. cbn [fst snd].
  destruct (DecoderFacts.answered this options op_i dns (reply op_i) Hv)
    as (t1 & -> & P1 & C1); [rewrite Hi, length_app; lia|].
  destruct (DecoderFacts.answered this options op_r dns (reply op_r) Hv)
    as (t2 & -> & P2 & C2); [rewrite Hr, length_app; lia|].
  destruct (DecoderFacts.answered this options op_d dns (reply op_d) Hv)
    as (t3 & -> & P3 & C3); [rewrite Hd, length_app; lia|].
  rewrite Hi in P1. rewrite Hr in P2. rewrite Hd in P3.
  destruct (DecoderFacts.decode_of_yields op_i h1 (wireInfo c p mp sn gm lang)
              (InfoResult (mkInfo (negb (c =? 0)) p mp (decodeWin1251String sn)
                             (decodeWin1251String gm) (decodeWin1251String lang)))
              [] Hh1) as (b1 & E1).
  { apply DecoderFacts.yields_decode_i.
    rewrite <- (app_nil_r (wireInfo c p mp sn gm lang)) at 1.
    apply ReadFacts.yields_readInfo. }
  destruct (DecoderFacts.decode_of_yields op_r h2 (wireRules rs)
              (RulesResult (map decodedRule rs)) [] Hh2) as (b2 & E2).
  { apply DecoderFacts.yields_decode_r.
    rewrite <- (app_nil_r (wireRules rs)) at 1. apply ReadFacts.yields_readRules. }
  rewrite E1 in P1. rewrite E2 in P2.
  rewrite (DecoderFacts.decode_of_faults op_d h3 (wirePlayersDetailed [player])
             BitStream.TruncatedBuffer Hh3) in P3.
  - rewrite P1, P2, P3. cbn [option_map snd fst map]. rewrite C1, C2, C3.
    split; reflexivity.
  - apply DecoderFacts.faults_decode_d.
    + intros fuel Hfuel. apply ReadFacts.single_record_faults. exact Hfuel.
    + unfold wirePlayersDetailed. cbn. lia.
Qed.

(** X20.  With the three replies of a server nobody is connected to,
    [getServer] of a valid target returns the info, the rules and an empty
    player list, from three exchanges: the first asks ['i'], the second
    ['r'], the third ['d'], each sends one packet and closes its socket
    once. *)
Theorem getServer_on_empty_server this options dns reply
    h1 h2 h3 c p mp sn gm lang rs :
  validTarget this options dns ->
  List.length h1 = 11%nat -> List.length h2 = 11%nat -> List.length h3 = 11%nat ->
  reply op_i = h1 ++ wireInfo c p mp sn gm lang ->
  reply op_r = h2 ++ wireRules rs ->
  reply op_d = h3 ++ wirePlayersDetailed [] ->
  option_map snd (getServer this options (answering dns reply))
  = Some (Fulfilled
            (Server.mk
               (InfoResult (mkInfo (negb (c =? 0)) p mp (decodeWin1251String sn)
                              (decodeWin1251String gm) (decodeWin1251String lang)))
               (RulesResult (map decodedRule rs))
               (PlayersDetailedResult [])))
  /\ option_map (fun r => map closes (fst r))
       (getServer this options (answering dns reply))
     = Some [1; 1; 1]%nat
  /\ option_map (fun r => map asked (fst r))
       (getServer this options (answering dns reply))
     = Some [[charCode op_i]; [charCode op_r]; [charCode op_d]].
Proof.
  intros Hv Hh1 Hh2 Hh3 Hi Hr Hd.
  unfold getServer, answering. cbn [fst snd].
  destruct (DecoderFacts.answered this options op_i dns (reply op_i) Hv)
    as (t1 & Q1 & P1 & C1); [rewrite Hi, length_app; lia|].
  destruct (DecoderFacts.answered this options op_r dns (reply op_r) Hv)
    as (t2 & Q2 & P2 & C2); [rewrite Hr, length_app; lia|].
  destruct (DecoderFacts.answered this options op_d dns (reply op_d) Hv)
    as (t3 & Q3 & P3 & C3); [rewrite Hd, length_app; lia|].
  pose proof (asked_once _ _ _ _ _ _ Hv Q1) as A1.
  pose proof (asked_once _ _ _ _ _ _ Hv Q2) as A2.
  pose proof (asked_once _ _ _ _ _ _ Hv Q3) as A3.
  rewrite Q1, Q2, Q3.
  rewrite Hi in P1. rewrite Hr in P2. rewrite Hd in P3.
  destruct (DecoderFacts.decode_of_yields op_i h1 (wireInfo c p mp sn gm lang)
              (InfoResult (mkInfo (negb (c =? 0)) p mp (decodeWin1251String sn)
                             (decodeWin1251String gm) (decodeWin1251String lang)))
              [] Hh1) as (b1 & E1).
  { apply DecoderFacts.yields_decode_i.
    rewrite <- (app_nil_r (wireInfo c p mp sn gm lang)) at 1.
    apply ReadFacts.yields_readInfo. }
  destruct (DecoderFacts.decode_of_yields op_r h2 (wireRules rs)
              (RulesResult (map decodedRule rs)) [] Hh2) as (b2 & E2).
  { apply DecoderFacts.yields_decode_r.
    rewrite <- (app_nil_r (wireRules rs)) at 1. apply ReadFacts.yields_readRules. }
  destruct (DecoderFacts.decode_of_yields op_d h3 (wirePlayersDetailed [])
              (PlayersDetailedResult []) [] Hh3) as (b3 & E3).
  { apply (DecoderFacts.yields_empty op_d _ [] eq_refl). }
  rewrite E1 in P1. rewrite E2 in P2. rewrite E3 in P3.
  rewrite P1, P2, P3. cbn [option_map snd fst map]. rewrite C1, C2, C3, A1, A2, A3.
  repeat split.
Qed.

(** X21.  [getServerPing] gives a number only when the ['i'] request
    resolved, which takes a datagram of at least 28 bytes among the events;
    the number is the difference of the two clock readings.  A timeout, a
    send failure or a short reply give no ping. *)
Theorem ping_needs_info_reply this options dns events startTime endTime t ping :
  getServerPing this options dns events startTime endTime = Some (t, Fulfilled ping) ->
  ping = endTime - startTime
  /\ exists message, In (Message message) events /\ (28 <= List.length message)%nat.
Proof.
  unfold getServerPing. intros H.
  destruct (request this options op_i dns events) as [t'|] eqn:E; [|discriminate H].
  injection H as <- H.
  destruct (promise t') as [[v | why]|] eqn:Hp; try discriminate H.
  injection H as <-. split; [reflexivity|].
  destruct (DecoderFacts.resolved_decoded _ _ _ _ _ _ _ E Hp)
    as (message & bs & Hin & Hlen & Hdec).
  exists message. split; [exact Hin|].
  destruct (Nat.lt_ge_cases (List.length message) 28) as [Hshort | Hok]; [|exact Hok].
  exfalso.
  rewrite (DecoderFacts.short_payload_faults op_i (skipn 11 message)) in Hdec.
  - discriminate Hdec.
  - rewrite length_skipn. cbn [minPayload]. lia.
  - apply ExchangeFacts.wf_replyReader.
  - reflexivity.
Qed.

Lemma getServer_fails_on_one_player_witness :
  option_map snd
    (getServer noOptions noOptions
       (answering noDns
          (fun opcode =>
             match opcode with
             | op_i => header ++ wireInfo 0 1 32 (str "Test") (str "DM") (str "EN")
             | op_r => header ++ wireRules [(str "weather", str "10")]
             | _ => header ++ wirePlayersDetailed [playerA]
             end)))
  = Some (Failed (Thrown BitStream.TruncatedBuffer))
  /\ option_map (fun r => map closes (fst r))
       (getServer noOptions noOptions
          (answering noDns
             (fun opcode =>
                match opcode with
                | op_i => header ++ wireInfo 0 1 32 (str "Test") (str "DM") (str "EN")
                | op_r => header ++ wireRules [(str "weather", str "10")]
                | _ => header ++ wirePlayersDetailed [playerA]
                end)))
     = Some [1; 1; 1]%nat.
Proof.
  apply (getServer_fails_on_one_player noOptions noOptions noDns _ header header header
           0 1 32 (str "Test") (str "DM") (str "EN") [(str "weather", str "10")] playerA
           localhost_valid); reflexivity.
Defined.

Lemma getServer_on_empty_server_witness :
  option_map snd
    (getServer noOptions noOptions
       (answering noDns
          (fun opcode =>
             match opcode with
             | op_i => header ++ wireInfo 0 0 32 (str "Test") (str "DM") (str "EN")
             | op_r => header ++ wireRules [(str "weather", str "10")]
             | _ => header ++ wirePlayersDetailed []
             end)))
  = Some (Fulfilled
            (Server.mk
               (InfoResult (mkInfo false 0 32 (str "Test") (str "DM") (str "EN")))
               (RulesResult [mkRule (str "weather") (str "10")])
               (PlayersDetailedResult [])))
  /\ option_map (fun r => map closes (fst r))
       (getServer noOptions noOptions
          (answering noDns
             (fun opcode =>
                match opcode with
                | op_i => header ++ wireInfo 0 0 32 (str "Test") (str "DM") (str "EN")
                | op_r => header ++ wireRules [(str "weather", str "10")]
                | _ => header ++ wirePlayersDetailed []
                end)))
     = Some [1; 1; 1]%nat
  /\ option_map (fun r => map asked (fst r))
       (getServer noOptions noOptions
          (answering noDns
             (fun opcode =>
                match opcode with
                | op_i => header ++ wireInfo 0 0 32 (str "Test") (str "DM") (str "EN")
                | op_r => header ++ wireRules [(str "weather", str "10")]
                | _ => header ++ wirePlayersDetailed []
                end)))
     = Some [[105]; [114]; [100]].
Proof.
  apply (getServer_on_empty_server noOptions noOptions noDns _ header header header
           0 0 32 (str "Test") (str "DM") (str "EN") [(str "weather", str "10")]
           localhost_valid); reflexivity.
Defined.

Lemma ping_needs_info_reply_witness :
  42 = 1042 - 1000
  /\ exists message,
      In (Message message)
        [SendDone None;
         Message (header ++ wireInfo 0 1 32 (str "Test") (str "DM") (str "EN"))]
      /\ (28 <= List.length message)%nat.
Proof.
  apply (ping_needs_info_reply noOptions noOptions noDns
           [SendDone None;
            Message (header ++ wireInfo 0 1 32 (str "Test") (str "DM") (str "EN"))]
           1000 1042
           (mkTransaction
              [CreateSocket; Send [83; 65; 77; 80; 127; 0; 0; 1; 97; 30; 105] 7777 "127.0.0.1";
               SetTimeout 2000; OnceMessage; ClearTimeout; Close]
              (Some (Resolved (InfoResult
                 (mkInfo false 1 32 (str "Test") (str "DM") (str "EN")))))
              false false false false)
           42).
  vm_compute. reflexivity.
Defined.

(** ** Every resolved reply, field by field *)

Module LayoutFacts.
Import BitStream.

Lemma bind_inr {A B} (m : Read A) (k : A -> Read B) bs b bs' :
  bind m k bs = inr (b, bs') ->
  exists a bs1, m bs = inr (a, bs1) /\ k a bs1 = inr (b, bs').
Proof.
  unfold bind. destruct (m bs) as [f | [a bs1]]; [discriminate|].
  intros H. exists a, bs1. split; [reflexivity | exact H].
Qed.

(** What a successful [readBytes] took and what it left. *)
Lemma readBytes_inv n bs raw bs' :
  sound bs -> readBytes n bs = inr (raw, bs') ->
  remaining bs = raw ++ remaining bs' /\ List.length raw = Z.to_nat n
  /\ Forall isByte raw /\ sound bs'.
Proof.
  intros [W HB] H. unfold readBytes in H.
  destruct (readOffset bs + Z.to_nat n <=? List.length (buffer bs))%nat eqn:Hle;
    [|discriminate].
  apply Nat.leb_le in Hle. injection H as <- <-.
  unfold sound, remaining, wf in *. cbn [buffer readOffset].
  assert (E : skipn (readOffset bs) (buffer bs)
              = firstn (Z.to_nat n) (skipn (readOffset bs) (buffer bs))
                ++ skipn (readOffset bs + Z.to_nat n) (buffer bs)).
  { rewrite (Nat.add_comm (readOffset bs)), <- skipn_skipn, firstn_skipn. reflexivity. }
  split; [exact E|]. rewrite E in HB. apply Forall_app in HB. destruct HB as [H1 H2].
  split; [rewrite length_firstn, length_skipn; lia|].
  split; [exact H1|]. split; [exact Hle | exact H2].
Qed.

Lemma readUInt8_inv bs v bs' :
  sound bs -> readUInt8 bs = inr (v, bs') ->
  remaining bs = v :: remaining bs' /\ isByte v /\ sound bs'.
Proof.
  intros S H. unfold readUInt8, readUInt in H.
  apply bind_inr in H as (raw & bs1 & E & H). injection H as <- <-.
  destruct (readBytes_inv _ _ _ _ S E) as (R & L & B & S').
  change (Z.to_nat 1) with 1%nat in L.
  destruct raw as [|b [|? ?]]; try discriminate L.
  inversion B; subst. cbn [littleEndian].
  replace (b + 256 * 0) with b by lia.
  split; [exact R | split; assumption].
Qed.

Lemma readUInt16_inv bs v bs' :
  sound bs -> readUInt16 bs = inr (v, bs') ->
  remaining bs = u16 v ++ remaining bs' /\ 0 <= v /\ sound bs'.
Proof.
  intros S H. unfold readUInt16, readUInt in H.
  apply bind_inr in H as (raw & bs1 & E & H). injection H as <- <-.
  destruct (readBytes_inv _ _ _ _ S E) as (R & L & B & S').
  change (Z.to_nat 2) with 2%nat in L.
  destruct raw as [|b0 [|b1 [|? ?]]]; try discriminate L.
  inversion B as [|? ? H0 B1]; subst. inversion B1 as [|? ? H1 _]; subst.
  unfold isByte in *. cbn [littleEndian]. unfold u16.
  set (n := b0 + 256 * (b1 + 256 * 0)).
  assert (E0 : n mod 256 = b0)
    by (unfold n; symmetry; apply (Z.mod_unique_pos _ _ b1); lia).
  assert (E1 : n / 256 = b1)
    by (unfold n; symmetry; apply (Z.div_unique_pos _ _ _ b0); lia).
  rewrite E0, E1.
  split; [exact R | split; [unfold n; lia | exact S']].
Qed.

Lemma readUInt32_inv bs v bs' :
  sound bs -> readUInt32 bs = inr (v, bs') ->
  remaining bs = u32 v ++ remaining bs' /\ 0 <= v /\ sound bs'.
Proof.
  intros S H. unfold readUInt32, readUInt in H.
  apply bind_inr in H as (raw & bs1 & E & H). injection H as <- <-.
  destruct (readBytes_inv _ _ _ _ S E) as (R & L & B & S').
  change (Z.to_nat 4) with 4%nat in L.
  destruct raw as [|b0 [|b1 [|b2 [|b3 [|? ?]]]]]; try discriminate L.
  inversion B as [|? ? H0 B1]; subst. inversion B1 as [|? ? H1 B2]; subst.
  inversion B2 as [|? ? H2 B3]; subst. inversion B3 as [|? ? H3 _]; subst.
  unfold isByte in *. cbn [littleEndian]. unfold u32.
  set (n := b0 + 256 * (b1 + 256 * (b2 + 256 * (b3 + 256 * 0)))).
  assert (E0 : n mod 256 = b0).
  { unfold n. symmetry. apply (Z.mod_unique_pos _ _ (b1 + 256 * (b2 + 256 * b3))); lia. }
  assert (E1 : n / 256 = b1 + 256 * (b2 + 256 * b3)).
  { unfold n. symmetry. apply (Z.div_unique_pos _ _ _ b0); lia. }
  assert (E2 : n / 65536 = b2 + 256 * b3).
  { change 65536 with (256 * 256). rewrite <- Z.div_div, E1 by lia.
    symmetry. apply (Z.div_unique_pos _ _ _ b1); lia. }
  assert (E3 : n / 16777216 = b3).
  { change 16777216 with (65536 * 256). rewrite <- Z.div_div, E2 by lia.
    symmetry. apply (Z.div_unique_pos _ _ _ b2); lia. }
  rewrite E0, E1, E2, E3.
  replace ((b1 + 256 * (b2 + 256 * b3)) mod 256) with b1
    by (apply (Z.mod_unique_pos _ _ (b2 + 256 * b3)); lia).
  replace ((b2 + 256 * b3) mod 256) with b2
    by (apply (Z.mod_unique_pos _ _ b3); lia).
  split; [exact R | split; [unfold n; lia | exact S']].
Qed.

(** A text of [len] bytes: the bytes taken, and their reading. *)
Lemma string_inv len bs txt bs' :
  sound bs -> 0 <= len -> bsReadCP1251String len bs = inr (txt, bs') ->
  exists raw, remaining bs = raw ++ remaining bs'
              /\ Z.of_nat (List.length raw) = len
              /\ txt = map win1251Char raw /\ sound bs'.
Proof.
  intros S Hlen H. unfold bsReadCP1251String in H.
  apply bind_inr in H as (raw & bs1 & E & H). injection H as <- <-.
  destruct (readBytes_inv _ _ _ _ S E) as (R & L & B & S').
  exists raw. split; [exact R|]. split; [rewrite L; apply Z2Nat.id; exact Hlen|].
  split; [reflexivity | exact S'].
Qed.

(** *** The decoders, read backwards *)

Lemma readInfo_inv bs info bs' :
  sound bs -> readInfo bs = inr (info, bs') ->
  exists c p mp sn gm lang,
    remaining bs = wireInfo c p mp sn gm lang ++ remaining bs'
    /\ info = mkInfo (negb (c =? 0)) p mp (map win1251Char sn)
                (map win1251Char gm) (map win1251Char lang).
Proof.
  intros S0 H. unfold readInfo, readBoolean in H.
  apply bind_inr in H as (closed & bs1 & E & H).
  apply bind_inr in E as (c & bs1' & Ec & E). injection E as <- <-.
  destruct (readUInt8_inv _ _ _ S0 Ec) as (R1 & _ & S1).
  apply bind_inr in H as (p & bs2 & E & H).
  destruct (readUInt16_inv _ _ _ S1 E) as (R2 & _ & S2). clear E.
  apply bind_inr in H as (mp & bs3 & E & H).
  destruct (readUInt16_inv _ _ _ S2 E) as (R3 & _ & S3). clear E.
  apply bind_inr in H as (len1 & bs4 & E & H).
  destruct (readUInt32_inv _ _ _ S3 E) as (R4 & P4 & S4). clear E.
  apply bind_inr in H as (t1 & bs5 & E & H).
  destruct (string_inv _ _ _ _ S4 P4 E) as (sn & R5 & L5 & -> & S5). clear E.
  apply bind_inr in H as (len2 & bs6 & E & H).
  destruct (readUInt32_inv _ _ _ S5 E) as (R6 & P6 & S6). clear E.
  apply bind_inr in H as (t2 & bs7 & E & H).
  destruct (string_inv _ _ _ _ S6 P6 E) as (gm & R7 & L7 & -> & S7). clear E.
  apply bind_inr in H as (len3 & bs8 & E & H).
  destruct (readUInt32_inv _ _ _ S7 E) as (R8 & P8 & S8). clear E.
  apply bind_inr in H as (t3 & bs9 & E & H).
  destruct (string_inv _ _ _ _ S8 P8 E) as (lang & R9 & L9 & -> & S9). clear E.
  injection H as <- <-.
  exists c, p, mp, sn, gm, lang. split; [|reflexivity].
  unfold wireInfo, field32. rewrite L5, L7, L9, <- !app_assoc.
  rewrite R1, R2, R3, R4, R5, R6, R7, R8, R9. reflexivity.
Qed.

Lemma readRulesLoop_inv n : forall acc bs r bs',
  sound bs -> readRulesLoop n acc bs = inr (r, bs') ->
  exists rs,
    List.length rs = n
    /\ remaining bs
       = List.concat (map (fun r => field8 (fst r) ++ field8 (snd r)) rs)
         ++ remaining bs'
    /\ r = acc ++ rulesOf rs.
Proof.
  induction n as [|n IH]; intros acc bs r bs' S0 H; cbn [readRulesLoop] in H.
  - injection H as <- <-. exists []. cbn. rewrite app_nil_r. repeat split.
  - apply bind_inr in H as (len1 & bs1 & E & H).
    destruct (readUInt8_inv _ _ _ S0 E) as (R1 & [P1 _] & S1). clear E.
    apply bind_inr in H as (t1 & bs2 & E & H).
    destruct (string_inv _ _ _ _ S1 P1 E) as (nm & R2 & L2 & -> & S2). clear E.
    apply bind_inr in H as (len2 & bs3 & E & H).
    destruct (readUInt8_inv _ _ _ S2 E) as (R3 & [P3 _] & S3). clear E.
    apply bind_inr in H as (t2 & bs4 & E & H).
    destruct (string_inv _ _ _ _ S3 P3 E) as (vl & R4 & L4 & -> & S4). clear E.
    destruct (IH _ _ _ _ S4 H) as (rs & Hlen & R5 & ->).
    exists ((nm, vl) :: rs). split; [cbn; lia|]. split.
    + cbn [map List.concat fst snd]. unfold field8. rewrite L2, L4, <- !app_assoc.
      cbn [app]. rewrite R1, R2, R3, R4, R5. reflexivity.
    + cbn [rulesOf map fst snd]. rewrite <- app_assoc. reflexivity.
Qed.

Lemma readRules_inv bs r bs' :
  sound bs -> readRules bs = inr (r, bs') ->
  exists rs, remaining bs = wireRules rs ++ remaining bs' /\ r = rulesOf rs.
Proof.
  intros S0 H. unfold readRules in H.
  apply bind_inr in H as (count & bs1 & E & H).
  destruct (readUInt16_inv _ _ _ S0 E) as (R1 & P1 & S1). clear E.
  destruct (readRulesLoop_inv _ _ _ _ _ S1 H) as (rs & Hlen & R2 & ->).
  exists rs. split; [|reflexivity].
  unfold wireRules. rewrite Hlen, Z2Nat.id, <- app_assoc, R1, R2 by exact P1.
  reflexivity.
Qed.

Lemma readPlayersDetailedLoop_inv fuel : forall i acc bs r bs',
  sound bs -> readPlayersDetailedLoop fuel i acc bs = inr (Some r, bs') ->
  exists bounds ps stop,
    List.length bounds = List.length ps /\ countsAbove i bounds
    /\ stop <= i + Z.of_nat (List.length ps)
    /\ remaining bs = wireRecounted bounds ps stop ++ remaining bs'
    /\ r = acc ++ playersOf ps.
Proof.
  induction fuel as [|fuel IH]; intros i acc bs r bs' S0 H;
    cbn [readPlayersDetailedLoop] in H; [discriminate H|].
  apply bind_inr in H as (bound & bs1 & E & H).
  destruct (readUInt16_inv _ _ _ S0 E) as (R1 & _ & S1). clear E.
  destruct (i <? bound) eqn:Hb.
  - apply Z.ltb_lt in Hb.
    apply bind_inr in H as (id1 & bs2 & E & H).
    destruct (readUInt8_inv _ _ _ S1 E) as (R2 & _ & S2). clear E.
    apply bind_inr in H as (len & bs3 & E & H).
    destruct (readUInt8_inv _ _ _ S2 E) as (R3 & [P3 _] & S3). clear E.
    apply bind_inr in H as (nm & bs4 & E & H).
    destruct (string_inv _ _ _ _ S3 P3 E) as (raw & R4 & L4 & -> & S4). clear E.
    apply bind_inr in H as (sc & bs5 & E & H).
    destruct (readUInt32_inv _ _ _ S4 E) as (R5 & _ & S5). clear E.
    apply bind_inr in H as (pg & bs6 & E & H).
    destruct (readUInt32_inv _ _ _ S5 E) as (R6 & _ & S6). clear E.
    destruct (IH _ _ _ _ _ S6 H) as (bounds & ps & stop & Hlen & Hab & Hstop & R7 & ->).
    exists (bound :: bounds), (mkWirePlayer id1 raw sc pg :: ps), stop.
    split; [cbn; lia|]. split; [split; assumption|].
    split; [cbn [List.length]; lia|]. split.
    + cbn [wireRecounted]. unfold wirePlayerBytes, field8.
      cbn [wId wName wScore wPing]. rewrite L4, <- !app_assoc. cbn [app].
      rewrite R1, R2, R3, R4, R5, R6, R7. reflexivity.
    + cbn [playersOf map wId wName wScore wPing]. rewrite <- app_assoc. reflexivity.
  - apply Z.ltb_ge in Hb. injection H as <- <-.
    exists [], [], bound. cbn. rewrite app_nil_r.
    repeat split; [lia | exact R1].
Qed.

Lemma readPlayersLoop_inv fuel : forall i acc bs r bs',
  sound bs -> readPlayersLoop fuel i acc bs = inr (Some r, bs') ->
  exists bounds ps stop,
    List.length bounds = List.length ps /\ countsAbove i bounds
    /\ stop <= i + Z.of_nat (List.length ps)
    /\ remaining bs = wireStatsRecounted bounds ps stop ++ remaining bs'
    /\ r = acc ++ statsOf ps.
Proof.
  induction fuel as [|fuel IH]; intros i acc bs r bs' S0 H;
    cbn [readPlayersLoop] in H; [discriminate H|].
  apply bind_inr in H as (bound & bs1 & E & H).
  destruct (readUInt16_inv _ _ _ S0 E) as (R1 & _ & S1). clear E.
  destruct (i <? bound) eqn:Hb.
  - apply Z.ltb_lt in Hb.
    apply bind_inr in H as (len & bs3 & E & H).
    destruct (readUInt8_inv _ _ _ S1 E) as (R3 & [P3 _] & S3). clear E.
    apply bind_inr in H as (nm & bs4 & E & H).
    destruct (string_inv _ _ _ _ S3 P3 E) as (raw & R4 & L4 & -> & S4). clear E.
    apply bind_inr in H as (sc & bs5 & E & H).
    destruct (readUInt32_inv _ _ _ S4 E) as (R5 & _ & S5). clear E.
    destruct (IH _ _ _ _ _ S5 H) as (bounds & ps & stop & Hlen & Hab & Hstop & R7 & ->).
    exists (bound :: bounds), ((raw, sc) :: ps), stop.
    split; [cbn; lia|]. split; [split; assumption|].
    split; [cbn [List.length]; lia|]. split.
    + cbn [wireStatsRecounted fst snd]. unfold field8.
      rewrite L4, <- !app_assoc. cbn [app].
      rewrite R1, R3, R4, R5, R7. reflexivity.
    + cbn [statsOf map fst snd]. rewrite <- app_assoc. reflexivity.
  - apply Z.ltb_ge in Hb. injection H as <- <-.
    exists [], [], bound. cbn. rewrite app_nil_r.
    repeat split; [lia | exact R1].
Qed.

(** Whatever a decoder returns, it read from a payload laid out for its
    opcode. *)
Lemma decode_laidOut opcode bs v bs' :
  sound bs -> decode opcode bs = inr (Some v, bs') -> laidOut opcode (remaining bs) v.
Proof.
  intros S0 H. destruct opcode; cbn [decode] in H.
  - apply bind_inr in H as (info & bs1 & E & H). injection H as <- <-.
    destruct (readInfo_inv _ _ _ S0 E) as (c & p & mp & sn & gm & lang & -> & ->).
    constructor.
  - apply bind_inr in H as (r & bs1 & E & H). injection H as <- <-.
    destruct (readRules_inv _ _ _ S0 E) as (rs & -> & ->). constructor.
  - apply bind_inr in H as ([r|] & bs1 & E & H); [|discriminate H].
    injection H as <- <-.
    destruct (readPlayersDetailedLoop_inv _ _ _ _ _ _ S0 E)
      as (bounds & ps & stop & Hlen & Hab & Hstop & -> & ->).
    cbn [app]. constructor; [exact Hlen | exact Hab | lia].
  - apply bind_inr in H as ([r|] & bs1 & E & H); [|discriminate H].
    injection H as <- <-.
    destruct (readPlayersLoop_inv _ _ _ _ _ _ S0 E)
      as (bounds & ps & stop & Hlen & Hab & Hstop & -> & ->).
    cbn [app]. constructor; [exact Hlen | exact Hab | lia].
Qed.

(** And a payload laid out for an opcode is decoded to its fields. *)
Lemma laidOut_decode opcode payload v :
  laidOut opcode payload v ->
  exists bs', decode opcode (mk payload 0 0) = inr (Some v, bs').
Proof.
  intros H.
  assert (Hy : exists rest, yields (decode opcode) payload (Some v) rest).
  { destruct H as [c p mp sn gm lang rest | rs rest
                  | bounds ps stop rest Hlen Hab Hstop
                  | bounds ps stop rest Hlen Hab Hstop]; exists rest.
    - apply DecoderFacts.yields_decode_i. apply ReadFacts.yields_readInfo.
    - apply DecoderFacts.yields_decode_r. apply ReadFacts.yields_readRules.
    - apply (DecoderFacts.yields_decode_d _ _ _ (List.length ps)).
      + rewrite length_app.
        pose proof (DecoderFacts.length_wireRecounted ps bounds stop Hlen). lia.
      + intros fuel Hfuel.
        apply (DecoderFacts.yields_recounted ps bounds stop 0 [] rest fuel Hlen Hab);
          [lia | exact Hfuel].
    - apply (DecoderFacts.yields_decode_c _ _ _ (List.length ps)).
      + rewrite length_app.
        pose proof (DecoderFacts.length_wireStatsRecounted ps bounds stop Hlen). lia.
      + intros fuel Hfuel.
        apply (DecoderFacts.yields_statsRecounted ps bounds stop 0 [] rest fuel Hlen Hab);
          [lia | exact Hfuel]. }
  destruct Hy as (rest & Hy).
  destruct (Hy (mk payload 0 0)) as (bs' & E & _);
    [unfold wf; cbn; lia | reflexivity |].
  exists bs'. exact E.
Qed.

End LayoutFacts.

(** C10.  Whatever the options and for each of the four opcodes, a call
    resolves with [v] on a datagram exactly when the datagram has 11 bytes
    or more and its payload is laid out as the fields its decoder reads,
    [v] holding these fields: every length-prefixed text field of the reply
    is in [v] as the windows-1251 reading of the bytes of that field, one
    code unit per byte, and nothing of the options enters. *)
Theorem text_fields_are_win1251 this opts opcode dns before t message more v :
  request this opts opcode dns before = Some t -> awaiting t ->
  Forall isByte message ->
  outcome (request this opts opcode dns (before ++ Message message :: more))
  = Some (Resolved v)
  <-> (11 <= List.length message)%nat /\ laidOut opcode (skipn 11 message) v.
Proof.
  intros H HA HB.
  destruct (ExchangeFacts.delivered _ _ _ _ _ _ message more H HA) as (E & Hp & _).
  rewrite E. cbn [outcome]. clear E. split.
  - intros Hv.
    destruct (Nat.lt_ge_cases (List.length message) 11) as [Hlen | Hlen].
    + destruct (ExchangeFacts.onMessage_short this opcode message _ Hlen Hp) as (Hs & _).
      rewrite (ExchangeFacts.run_settled _ _ _ _ more _ _ Hs) in Hv. discriminate Hv.
    + split; [exact Hlen|].
      destruct (ExchangeFacts.onMessage_long this opcode message (handling t) Hlen Hp)
        as (Hs & _).
      destruct (decode opcode (replyReader message)) as [f | [[v'|] bs]] eqn:Ed.
      * rewrite (ExchangeFacts.run_settled _ _ _ _ more _ _ Hs) in Hv. discriminate Hv.
      * rewrite (ExchangeFacts.run_settled _ _ _ _ more _ _ Hs) in Hv.
        injection Hv as <-.
        apply (LayoutFacts.decode_laidOut opcode (replyReader message) v' bs);
          [|exact Ed].
        split; [apply ExchangeFacts.wf_replyReader|].
        unfold replyReader, BitStream.remaining. cbn [BitStream.buffer BitStream.readOffset skipn].
        rewrite <- (firstn_skipn 11 message) in HB. apply Forall_app in HB. apply HB.
      * exfalso. apply (ReadFacts.decode_total opcode _ bs
                          (ExchangeFacts.wf_replyReader message) Ed).
  - intros [Hlen Hl].
    destruct (LayoutFacts.laidOut_decode _ _ _ Hl) as (bs' & Ed).
    destruct (ExchangeFacts.onMessage_long this opcode message (handling t) Hlen Hp)
      as (Hs & _).
    unfold replyReader in Hs. rewrite Ed in Hs.
    apply ExchangeFacts.run_settled. exact Hs.
Qed.

Lemma text_fields_are_win1251_witness :
  outcome (request noOptions noOptions op_r noDns
             ([SendDone None]
              ++ Message (header ++ wireRules [([0xEC; 0xE0; 0xEF], [0xCB; 0xD1])] ++ [7])
              :: []))
  = Some (Resolved (RulesResult [mkRule [0x043C; 0x0430; 0x043F] [0x041B; 0x0421]])).
Proof.
  apply (text_fields_are_win1251 noOptions noOptions op_r noDns [SendDone None]
           (mkTransaction
              [CreateSocket; Send [83; 65; 77; 80; 127; 0; 0; 1; 97; 30; 114] 7777 "127.0.0.1";
               SetTimeout 2000; OnceMessage] None true true true false)
           (header ++ wireRules [([0xEC; 0xE0; 0xEF], [0xCB; 0xD1])] ++ [7]) []
           (RulesResult (rulesOf [([0xEC; 0xE0; 0xEF], [0xCB; 0xD1])]))).
  - reflexivity.
  - split; reflexivity.
  - cbn. repeat (constructor; [unfold isByte; lia|]). constructor.
  - split; [cbn; lia|].
    exact (laidOut_r [([0xEC; 0xE0; 0xEF], [0xCB; 0xD1])] [7]).
Defined.
